(** * Mary9: budget allocation, iteration schedule, knowledge exchange and
      final ranking of [Mary9Optimizer] (src/mary9/optimizer.py)

    The optimizer mixes Python integers with IEEE-754 binary64 numbers
    (Python [float], [numpy.float64]).  Integers are [Z]; binary64 numbers
    are the [spec_float] values of the Standard Library with its
    correctly rounded operations at precision 53. *)

From stdpp Require Import base list strings sorting.
From Stdlib Require Import ZArith Lia SpecFloat.

Local Open Scope Z_scope.

(** ** Exceptions and results *)

Inductive exn :=
| ValueError
| NotEnoughMultiStarts
| OverflowError
| ZeroDivisionError
| IndexError
| UnboundLocalError
| UnknownThresholding.

Inductive res (A : Type) :=
| Ok (a : A)
| Raise (e : exn).
Arguments Ok {A} a.
Arguments Raise {A} e.

#[global] Instance res_ret : MRet res := fun _ a => Ok a.

#[global] Instance res_bind : MBind res := fun _ _ k r =>
  match r with
  | Ok a => k a
  | Raise e => Raise e
  end.

(** ** Binary64 arithmetic *)

Module F64.

Definition prec : Z := 53.
Definition emax : Z := 1024.

Abbreviation float := spec_float.

Definition nan : float := S754_nan.

Definition add : float -> float -> float := SFadd prec emax.
Definition sub : float -> float -> float := SFsub prec emax.
Definition mul : float -> float -> float := SFmul prec emax.
Definition div : float -> float -> float := SFdiv prec emax.
Definition sqrt : float -> float := SFsqrt prec emax.

Definition ltb : float -> float -> bool := SFltb.
Definition leb : float -> float -> bool := SFleb.
Definition eqb : float -> float -> bool := SFeqb.
Definition gtb (a b : float) : bool := SFltb b a.

Definition is_nan (f : float) : bool :=
  match f with S754_nan => true | _ => false end.

Definition is_inf (f : float) : bool :=
  match f with S754_infinity _ => true | _ => false end.

(** Nearest binary64 number of an integer (ties to even). *)
Definition of_Z (z : Z) : float := binary_normalize prec emax z 0 false.

(** Quotient of two integers, rounded once. *)
Definition div_Z (a b : Z) : float :=
  match a, b with
  | 0, 0 => S754_nan
  | 0, _ => S754_zero (b <? 0)
  | _, 0 => S754_infinity (a <? 0)
  | _, _ =>
      SFdiv prec emax (S754_finite (a <? 0) (Z.to_pos (Z.abs a)) 0)
                      (S754_finite (b <? 0) (Z.to_pos (Z.abs b)) 0)
  end.

(** An integer [z] as a float result, keeping the sign [s] when [z] is 0. *)
Definition of_Z_signed (s : bool) (z : Z) : float :=
  if z =? 0 then S754_zero s else of_Z z.

(** [m * 2^e] has no fractional bit. *)
Definition integral (m : positive) (e : Z) : bool :=
  Z.shiftl (Z.shiftl (Zpos m) e) (- e) =? Zpos m.

Definition floor (f : float) : float :=
  match f with
  | S754_finite s m e =>
      let q := Z.shiftl (Zpos m) e in
      of_Z_signed s (if s then (if integral m e then - q else - q - 1) else q)
  | _ => f
  end.

Definition ceil (f : float) : float :=
  match f with
  | S754_finite s m e =>
      let q := Z.shiftl (Zpos m) e in
      of_Z_signed s (if s then - q else (if integral m e then q else q + 1))
  | _ => f
  end.

(** Round to the nearest integer, halves to the even one. *)
Definition rint (f : float) : float :=
  match f with
  | S754_finite s m e =>
      let q := Z.shiftl (Zpos m) e in
      let r := Zpos m - Z.shiftl q (- e) in
      let n :=
        if 0 <=? e then q
        else match 2 * r ?= Z.shiftl 1 (- e) with
             | Lt => q
             | Gt => q + 1
             | Eq => if Z.even q then q else q + 1
             end in
      of_Z_signed s (if s then - n else n)
  | _ => f
  end.

(** The integer part, toward zero; nothing for NaN and the infinities. *)
Definition trunc (f : float) : option Z :=
  match f with
  | S754_zero _ => Some 0
  | S754_finite s m e => Some (cond_Zopp s (Z.shiftl (Zpos m) e))
  | _ => None
  end.

(** Decimal literals of the source: the binary64 number nearest to [n / d]. *)
Definition lit (n d : Z) : float := div_Z n d.

End F64.

Abbreviation float := spec_float.

(** ** Python and numpy primitives the optimizer calls *)

Module py.

(** [float(z)] of a Python integer. *)
Definition float_of_int (z : Z) : res float :=
  let f := F64.of_Z z in
  if F64.is_inf f then Raise OverflowError else Ok f.

(** [int(f)] of a float. *)
Definition int (f : float) : res Z :=
  match F64.trunc f with
  | Some z => Ok z
  | None => if F64.is_nan f then Raise ValueError else Raise OverflowError
  end.

(** [a / b] of two Python integers. *)
Definition int_truediv (a b : Z) : res float :=
  if b =? 0 then Raise ZeroDivisionError
  else let f := F64.div_Z a b in
       if F64.is_inf f then Raise OverflowError else Ok f.

(** [x * z] of a Python float and a Python integer. *)
Definition float_mul_int (x : float) (z : Z) : res float :=
  y ← float_of_int z; Ok (F64.mul x y).

(** [x / z] of a Python float and a Python integer. *)
Definition float_div_int (x : float) (z : Z) : res float :=
  if z =? 0 then Raise ZeroDivisionError
  else y ← float_of_int z; Ok (F64.div x y).

End py.

Module np.

(** [np.round(x)] of a scalar. *)
Definition round (x : float) : float := F64.rint x.

Definition floor (x : float) : float := F64.floor x.
Definition ceil (x : float) : float := F64.ceil x.

(** [np.max([a, b])] of a two-element float array: NaN wins. *)
Definition max2 (a b : float) : float :=
  if F64.is_nan a || F64.is_nan b then F64.nan
  else if F64.ltb a b then b else a.

(** [np.linspace(start, stop, num, endpoint)]: [arange(num) * step + start]
    with [step = (stop - start) / div]; with [endpoint] the last sample
    is [stop] itself. *)
Definition linspace_sample (start stop : float) (div : Z) (i : Z) : float :=
  let delta := F64.sub stop start in
  let y := F64.of_Z i in
  let scaled :=
    if 0 <? div then
      let step := F64.div delta (F64.of_Z div) in
      if F64.eqb step (F64.of_Z 0)
      then F64.mul (F64.div y (F64.of_Z div)) delta
      else F64.mul y step
    else F64.mul y delta in
  F64.add scaled start.

Definition linspace (start stop : float) (num : Z) (endpoint : bool)
  : res (list float) :=
  if num <? 0 then Raise ValueError
  else
    let div := if endpoint then num - 1 else num in
    let y := (fun i : nat => linspace_sample start stop div (Z.of_nat i))
               <$> seq 0 (Z.to_nat num) in
    Ok (if endpoint && (1 <? num)
        then <[Z.to_nat (num - 1) := stop]> y
        else y).

(** [np.nanmin(l)]: the least entry that is not NaN; NaN when every entry
    is NaN; [ValueError] on an empty array. *)
Definition fmin (acc v : float) : float :=
  if F64.is_nan acc then v
  else if F64.is_nan v then acc
  else if F64.ltb v acc then v else acc.

Definition nanmin (l : list float) : res float :=
  match l with
  | [] => Raise ValueError
  | v :: tl => Ok (fold_left fmin tl v)
  end.

(** [np.linalg.norm(v)] of a one-dimensional array: the square root of
    the sum of squares, accumulated left to right. *)
Definition linalg_norm (v : list float) : float :=
  F64.sqrt (fold_left (fun acc c => F64.add acc (F64.mul c c)) v (F64.of_Z 0)).

(** The order [np.argsort] sorts floats by: ascending, NaN last. *)
Definition sort_le (a b : float) : bool :=
  if F64.is_nan b then true
  else if F64.is_nan a then false
  else F64.leb a b.

(** Pairs of a position and its entry, compared by entry. *)
Definition by_entry (p q : nat * float) : Prop := sort_le p.2 q.2 = true.

#[global] Instance by_entry_dec p q : Decision (by_entry p q) :=
  bool_eq_dec _ _.

(** [np.argsort(l)]: the positions of [l] in an order that sorts it.
    The entries are paired with their positions and the pairs sorted by
    entry; which of two equal entries comes first is left open by numpy
    and not relied on below. *)
Definition argsort (l : list float) : list nat :=
  fst <$> merge_sort by_entry (zip (seq 0 (length l)) l).

(** [a - b] of two arrays of one length. *)
Definition subtract (a b : list float) : list float := zip_with F64.sub a b.

End np.

(** ** The optimizer object *)

(** The fields of [self] that [__init__] sets from its arguments and that
    the budget allocator reads. *)
Record Mary9Optimizer := {
  n_equivalent_multi_starts : Z;
  local_search_equivalent : Z;
  gradient_eval_equivalent : Z;
  n_parameters : Z
}.

(** [__init__]: [gradient_eval_equivalent] defaults to [n_parameters]. *)
Definition init (n_equivalent_multi_starts local_search_equivalent : Z)
    (gradient_eval_equivalent : option Z) (n_parameters : Z) : Mary9Optimizer :=
  {| n_equivalent_multi_starts := n_equivalent_multi_starts;
     local_search_equivalent := local_search_equivalent;
     gradient_eval_equivalent := default n_parameters gradient_eval_equivalent;
     n_parameters := n_parameters |}.

(** [self.budgets], [self.popsizes] and [self.n_iterations] after
    [_distribute_budget]; one field per key. *)
Record Budgets := {
  budget_total : Z;
  budget_global : Z;
  budget_local : Z;
  budget_refinement : Z;
  budget_CMAES : Z;
  budget_DiffEvol : Z;
  budget_sampling_CMAES : Z;
  budget_sampling_DiffEvol : Z
}.

Record Popsizes := {
  popsize_CMAES : Z;
  popsize_DiffEvol : Z;
  popsize_initial_refinements : Z;
  popsize_runtime_refinements : list Z
}.

Record NIterations := {
  n_iter_CMAES : Z;
  n_iter_DiffEvol : Z;
  n_iter_global : Z
}.

Record Allocation := {
  budgets : Budgets;
  popsizes : Popsizes;
  n_iterations : NIterations;
  n_refinements : Z;
  n_local_searches : Z
}.

(** [int(np.round(x))] *)
Definition int_round (x : float) : res Z := py.int (np.round x).

(** Differences of consecutive entries,
    [[l[ir] - l[ir - 1] for ir in range(1, len(l))]]. *)
Fixpoint consecutive_differences (l : list Z) : list Z :=
  match l with
  | a :: (b :: _) as tl => (b - a) :: consecutive_differences tl
  | _ => []
  end.

(** Lower bound of the CMAES population size, lines 118-119:
    [np.max([2 * n_equivalent_multi_starts, np.ceil(1.5 * n_parameters)])]. *)
Definition lb_popsize_CMAES (self : Mary9Optimizer) : res float :=
  two_ms ← py.float_of_int (2 * n_equivalent_multi_starts self);
  par ← py.float_mul_int (F64.lit 15 10) (n_parameters self);
  Ok (np.max2 two_ms (np.ceil par)).

Definition lb_iterations_CMAES : Z := 50.
Definition max_iter_CMAES : Z := 500.

(** [np.floor(budget / max_iter) - 1], the population size tried first. *)
Definition attempted_popsize (budget max_iter : Z) : res float :=
  q ← py.int_truediv budget max_iter;
  Ok (F64.sub (np.floor q) (F64.of_Z 1)).

(** The (popsize, iterations) pair of CMAES, lines 118-132. *)
Definition resolve_CMAES (self : Mary9Optimizer) (budget : Z) : res (Z * Z) :=
  lb_popsize ← lb_popsize_CMAES self;
  popsize_CMAES ← attempted_popsize budget max_iter_CMAES;
  if F64.gtb popsize_CMAES lb_popsize then
    p ← py.int popsize_CMAES;
    Ok (p, max_iter_CMAES)
  else
    b ← py.float_of_int budget;
    let n_iter_CMAES := np.floor (F64.div b lb_popsize) in
    if F64.ltb n_iter_CMAES (F64.of_Z lb_iterations_CMAES)
    then Raise NotEnoughMultiStarts
    else
      n ← py.int n_iter_CMAES;
      Ok (lb_iterations_CMAES, n).

(** Lower bound of the DiffEvol population size, line 135. *)
Definition lb_popsize_DE (self : Mary9Optimizer) : Z :=
  2 * n_equivalent_multi_starts self.

Definition lb_iterations_DiffEvol : Z := 25.
Definition max_iter_DE : Z := 150.

(** The (popsize, iterations) pair of DiffEvol, lines 135-148. *)
Definition resolve_DiffEvol (self : Mary9Optimizer) (budget : Z) : res (Z * Z) :=
  popsize_DiffEvol ← attempted_popsize budget max_iter_DE;
  lb ← py.float_of_int (lb_popsize_DE self);
  if F64.gtb popsize_DiffEvol lb then
    p ← py.int popsize_DiffEvol;
    Ok (p, max_iter_DE)
  else
    q ← py.int_truediv budget (lb_popsize_DE self);
    let n_iter_DE := np.floor q in
    if F64.ltb n_iter_DE (F64.of_Z lb_iterations_DiffEvol)
    then Raise NotEnoughMultiStarts
    else
      n ← py.int n_iter_DE;
      Ok (lb_iterations_DiffEvol, n).

Definition distribute_budget (self : Mary9Optimizer) : res Allocation :=
  let refinement_equivalent := 50 in
  let total_budget := n_equivalent_multi_starts self
                      * gradient_eval_equivalent self
                      * local_search_equivalent self in
  let local_search_cost := gradient_eval_equivalent self
                           * local_search_equivalent self in
  let refinement_cost := gradient_eval_equivalent self * refinement_equivalent in
  g ← py.float_mul_int (F64.lit 4 10) total_budget;
  b_global ← int_round g;
  l ← py.float_mul_int (F64.lit 4 10) total_budget;
  b_local ← int_round l;
  r ← py.float_mul_int (F64.lit 8 10) total_budget;
  r8 ← int_round r;
  let b_refinement := total_budget - r8 in
  c ← py.float_mul_int (F64.lit 4 10) b_global;
  b_CMAES ← int_round c;
  gf ← py.float_of_int b_global;
  d ← py.float_mul_int (F64.lit 4 10) b_global;
  b_DiffEvol ← py.int (F64.sub gf (np.round d));
  nr ← py.int_truediv b_refinement refinement_cost;
  n_refinements ← int_round nr;
  '(ps_CMAES, it_CMAES) ← resolve_CMAES self b_CMAES;
  '(ps_DiffEvol, it_DiffEvol) ← resolve_DiffEvol self b_DiffEvol;
  ig ← py.float_mul_int (F64.lit 1 10) b_global;
  ir ← py.float_div_int ig refinement_cost;
  ps_initial ← int_round ir;
  let n_runtime_refinements := n_refinements - ps_initial in
  stop ← py.float_of_int n_runtime_refinements;
  pts ← np.linspace (F64.of_Z 0) stop 4 true;
  breakpoints ← mapM int_round pts;
  ls ← py.int_truediv b_local local_search_cost;
  n_local_searches ← int_round ls;
  t ← py.int_truediv total_budget 1000;
  s0 ← int_round t;
  sc ← py.float_mul_int (F64.lit 25 10) ps_CMAES;
  s_CMAES ← py.int (np.ceil sc);
  sd ← py.float_mul_int (F64.lit 25 10) ps_DiffEvol;
  s_DiffEvol ← py.int sd;
  Ok {| budgets := {| budget_total := total_budget;
                      budget_global := b_global;
                      budget_local := b_local;
                      budget_refinement := b_refinement;
                      budget_CMAES := b_CMAES;
                      budget_DiffEvol := b_DiffEvol;
                      budget_sampling_CMAES := Z.max s0 s_CMAES;
                      budget_sampling_DiffEvol := Z.max s0 s_DiffEvol |};
        popsizes := {| popsize_CMAES := ps_CMAES;
                       popsize_DiffEvol := ps_DiffEvol;
                       popsize_initial_refinements := ps_initial;
                       popsize_runtime_refinements :=
                         consecutive_differences breakpoints |};
        n_iterations := {| n_iter_CMAES := it_CMAES;
                           n_iter_DiffEvol := it_DiffEvol;
                           n_iter_global := Z.max it_CMAES it_DiffEvol |};
        n_refinements := n_refinements;
        n_local_searches := n_local_searches |}.

(** ** Iteration schedule *)

Inductive activation := CMAES | DiffEvol | InitialRefine | RuntimeRefine.

(** [[int(iter) for iter in np.linspace(0, n_global, n_X, endpoint=False)]],
    lines 315-323. *)
Definition calls_to (n_global n_X : Z) : res (list Z) :=
  stop ← py.float_of_int n_global;
  pts ← np.linspace (F64.of_Z 0) stop n_X false;
  mapM py.int pts.

(** [int(np.round(frac * n_global))] *)
Definition checkpoint (frac : float) (n_global : Z) : res Z :=
  x ← py.float_mul_int frac n_global;
  int_round x.

Definition member (i : Z) (l : list Z) : bool := existsb (Z.eqb i) l.

Definition schedule_iterations (n : NIterations) : res (list (list activation)) :=
  calls_to_CMAES ← calls_to (n_iter_global n) (n_iter_CMAES n);
  calls_to_DiffEvol ← calls_to (n_iter_global n) (n_iter_DiffEvol n);
  c5 ← checkpoint (F64.lit 5 100) (n_iter_global n);
  let calls_to_InitialRefine := [c5] in
  c30 ← checkpoint (F64.lit 3 10) (n_iter_global n);
  c50 ← checkpoint (F64.lit 5 10) (n_iter_global n);
  c70 ← checkpoint (F64.lit 7 10) (n_iter_global n);
  let calls_to_RuntimeRefine := [c30; c50; c70] in
  Ok ((fun i : nat =>
         let iteration := Z.of_nat i in
         (if member iteration calls_to_CMAES then [CMAES] else [])
         ++ (if member iteration calls_to_DiffEvol then [DiffEvol] else [])
         ++ (if member iteration calls_to_InitialRefine then [InitialRefine] else [])
         ++ (if member iteration calls_to_RuntimeRefine then [RuntimeRefine] else []))
        <$> seq 0 (Z.to_nat (n_iter_global n))).

(** ** Populations and the object store *)

Record Individual := {
  x : list float;
  fitness : float;
  diversity : float
}.

#[global] Instance Individual_inhabited : Inhabited Individual :=
  populate {| x := []; fitness := F64.nan; diversity := F64.nan |}.

(** The address of an [Individual] object. *)
Abbreviation loc := nat.

(** The two population objects a call of [_share_knowledge] receives. *)
Inductive population := update_from | update_to.

(** What [logger.debug] is called with: the message and the values it
    formats. *)
Inductive LogRecord :=
| NoneExchanged (update_popsize : Z)
| Exchanged (points_exchanged update_popsize : Z).

(** The objects a call can reach: the [Individual] objects by address, the
    [individuals] list of each population (a list of references), and the
    records logged so far. *)
Record Store := {
  objs : list Individual;
  from_individuals : list loc;
  to_individuals : list loc;
  debug_log : list LogRecord
}.

Definition individuals (p : population) (s : Store) : list loc :=
  match p with
  | update_from => from_individuals s
  | update_to => to_individuals s
  end.

Definition deref (s : Store) (l : loc) : Individual := objs s !!! l.

(** Modelled from the spec: population.py is not among the sources.  A
    Population is a fixed-size, index-addressable ordered collection of
    Individuals; iterating it ([for ind in population]) yields its
    individuals in order. *)
Definition members (p : population) (s : Store) : list Individual :=
  deref s <$> individuals p s.

(** Modelled from the spec: [Population.get_fitness()] of the missing
    population.py, a snapshot of the fitness values of the individuals,
    in order. *)
Definition get_fitness (p : population) (s : Store) : list float :=
  fitness <$> members p s.

(** Modelled from the spec: [Population.popsize] of the missing
    population.py, the number of individuals. *)
Definition popsize (p : population) (s : Store) : Z :=
  Z.of_nat (length (individuals p s)).

(** ** A state and exception monad over the store *)

Definition M (A : Type) : Type := Store -> res A * Store.

#[global] Instance M_ret : MRet M := fun _ a s => (Ok a, s).

#[global] Instance M_bind : MBind M := fun _ _ k m s =>
  match m s with
  | (Ok a, s') => k a s'
  | (Raise e, s') => (Raise e, s')
  end.

Definition raise {A} (e : exn) : M A := fun s => (Raise e, s).

Definition read {A} (f : Store -> A) : M A := fun s => (Ok (f s), s).

Definition lift {A} (r : res A) : M A := fun s => (r, s).

(** [l[i]] of a Python list. *)
Definition index {A} (l : list A) (i : nat) : M A :=
  match l !! i with
  | Some a => mret a
  | None => raise IndexError
  end.

(** [p.individuals[i]] *)
Definition individual_at (p : population) (i : nat) : M loc :=
  l ← read (individuals p); index l i.

(** [deepcopy(individual)]: a new object with the same field values. *)
Definition deepcopy (l : loc) : M loc := fun s =>
  (Ok (length (objs s)),
   {| objs := objs s ++ [deref s l];
      from_individuals := from_individuals s;
      to_individuals := to_individuals s;
      debug_log := debug_log s |}).

(** [update_to.individuals[i] = l]; [IndexError] outside the list. *)
Definition set_individual (i : nat) (l : loc) : M unit := fun s =>
  if decide (i < length (to_individuals s))%nat then
    (Ok (),
     {| objs := objs s;
        from_individuals := from_individuals s;
        to_individuals := <[i := l]> (to_individuals s);
        debug_log := debug_log s |})
  else (Raise IndexError, s).

(** [self.logger.debug(...)] *)
Definition debug (r : LogRecord) : M unit := fun s =>
  (Ok (),
   {| objs := objs s;
      from_individuals := from_individuals s;
      to_individuals := to_individuals s;
      debug_log := debug_log s ++ [r] |}).

(** A [for] loop threading a local variable. *)
Fixpoint for_each {A B} (body : B -> A -> M B) (l : list A) (b : B) : M B :=
  match l with
  | [] => mret b
  | a :: tl => b' ← body b a; for_each body tl b'
  end.

(** What a Python call evaluates to. *)
Inductive pyval := PyNone | PyInt (z : Z).

(** ** Knowledge exchange *)

Definition strategy : Type := float * float * float * float.

Section KnowledgeExchange.

(** sampler.py is not among the sources: [Sampler.select_subsample]
    returns the suggested points and the indices chosen from the
    proposal, [Sampler.select_weakest_sample] the indices of the weakest
    members; both read the population they are given.  The percentile
    is numpy's [nanpercentile]. *)
Variable select_subsample :
  list Individual -> Z -> strategy -> float -> list (list float) * list nat.
Variable select_weakest_sample : list Individual -> Z -> list nat.
Variable nanpercentile : list float -> Z -> float.

(** Lines 531-538.  [fittest_old] is bound only when the gate ran. *)
Definition threshold_of (update_threshold : string)
    (fittest_old : option float) (good_value_old : float)
    (individual_old : loc) : M float :=
  if String.eqb update_threshold "only best" then
    match fittest_old with
    | Some f => mret f
    | None => raise UnboundLocalError
    end
  else if String.eqb update_threshold "always if better" then
    read (fun s => fitness (deref s individual_old))
  else if String.eqb update_threshold "in between" then
    mret good_value_old
  else raise UnknownThresholding.

(** Lines 543-546: some member of [update_to] lies closer than 1e-4. *)
Definition point_already_in_population (new : Individual)
    (olds : list Individual) : bool :=
  existsb (fun tmp_ind_old =>
             F64.ltb (np.linalg_norm (np.subtract (x new) (x tmp_ind_old)))
                     (F64.lit 1 10000)) olds.

(** The body of the loop, lines 523-550. *)
Definition exchange_point (chosen weakest_inds : list nat)
    (update_threshold : string) (fittest_old : option float)
    (good_value_old : float) (points_exchanged : Z) (i_vector : nat) : M Z :=
  id_new ← index chosen i_vector;
  individual_new ← individual_at update_from id_new;
  id_old ← index weakest_inds i_vector;
  individual_old ← individual_at update_to id_old;
  threshold ← threshold_of update_threshold fittest_old good_value_old
                            individual_old;
  new ← read (fun s => deref s individual_new);
  if F64.ltb (fitness new) threshold then
    olds ← read (members update_to);
    if point_already_in_population new olds then mret points_exchanged
    else
      copy ← deepcopy individual_new;
      set_individual id_old copy;;
      mret (points_exchanged + 1)
  else mret points_exchanged.

(** Lines 500-553: everything after the gate. *)
Definition exchange (update_popsize : Z) (update_strategy : strategy)
    (update_threshold : string) (fittest_old : option float) : M pyval :=
  n ← read (popsize update_from);
  ban_distance ← lift (py.float_div_int (F64.lit 25 100) n);
  proposal ← read (members update_from);
  let '(suggested_points, chosen) :=
    select_subsample proposal update_popsize update_strategy ban_distance in
  olds ← read (members update_to);
  let weakest_inds := select_weakest_sample olds update_popsize in
  fit ← read (get_fitness update_to);
  let good_value_old := nanpercentile fit 5 in
  points_exchanged ←
    for_each (exchange_point chosen weakest_inds update_threshold
                             fittest_old good_value_old)
             (seq 0 (length suggested_points)) 0;
  debug (Exchanged points_exchanged update_popsize);;
  mret PyNone.

(** [_share_knowledge], lines 481-553. *)
Definition share_knowledge (update_popsize : Z) (update_strategy : strategy)
    (update_threshold : string) (only_if_new_best_point : bool) : M pyval :=
  if only_if_new_best_point then
    fit_to ← read (get_fitness update_to);
    fittest_old ← lift (np.nanmin fit_to);
    fit_from ← read (get_fitness update_from);
    fittest_new ← lift (np.nanmin fit_from);
    if negb (F64.ltb fittest_new fittest_old) then
      debug (NoneExchanged update_popsize);;
      mret PyNone
    else exchange update_popsize update_strategy update_threshold
                  (Some fittest_old)
  else exchange update_popsize update_strategy update_threshold None.

End KnowledgeExchange.

(** ** Final search *)

(** What the local solver returns ([scipy.optimize.OptimizeResult]): the
    parameter vector and the objective value there. *)
Record OptimizeResult := {
  result_x : list float;
  fval : float
}.

Section FinalSearch.

(** The local solver ([FidesWrapper.minimize] with the objective
    function, given the start point and the id) and the rescaling of
    util.py are not among the sources. *)
Variable rescale_to_bounds : list float -> list float.
Variable minimize : list float -> nat -> OptimizeResult.

(** Lines 568-581: one local search per selected point. *)
Definition run_local_searches (final_search_points : list (list float))
  : list OptimizeResult :=
  imap (fun id point => minimize (rescale_to_bounds point) id)
       final_search_points.

(** Lines 583-585: the results are appended to [self.final_results] in
    the order [np.argsort] gives for their objective values. *)
Definition append_ranked (final_results : list OptimizeResult)
    (self_final_results : list OptimizeResult) : res (list OptimizeResult) :=
  let final_fvals := fval <$> final_results in
  let ordering := np.argsort final_fvals in
  ranked ← mapM (fun ord => match final_results !! ord with
                            | Some r => Ok r
                            | None => Raise IndexError
                            end) ordering;
  Ok (self_final_results ++ ranked).

(** [_perform_final_search] on the points the sampler selected;
    [__init__] leaves [self.final_results] empty. *)
Definition perform_final_search (final_search_points : list (list float))
  : res (list OptimizeResult) :=
  append_ranked (run_local_searches final_search_points) [].

End FinalSearch.

(** ** Vocabulary of the properties *)

(** [z] is an integer nearest to the rational [num / den]. *)
Definition nearest_integer (z num den : Z) : Prop :=
  2 * Z.abs (z * den - num) <= den.

(** The store after one replacement: a copy of the individual at [l_new]
    is allocated and slot [id_old] of [update_to] refers to it. *)
Definition install (s : Store) (l_new : loc) (id_old : nat) : Store :=
  {| objs := objs s ++ [deref s l_new];
     from_individuals := from_individuals s;
     to_individuals := <[id_old := length (objs s)]> (to_individuals s);
     debug_log := debug_log s |}.

(** The decision the loop body takes before it replaces slot [id_old] by
    a copy of the source individual at [l_new]: the fitness is strictly
    below the threshold [t] and no member of [update_to] is closer than
    1e-4. *)
Record accepted (t : float) (s : Store) (l_new : loc) (id_old : nat) : Prop := {
  accepted_source : l_new ∈ from_individuals s;
  accepted_slot : (id_old < length (to_individuals s))%nat;
  accepted_fitness : F64.ltb (fitness (deref s l_new)) t = true;
  accepted_fresh :
    point_already_in_population (deref s l_new) (members update_to s) = false
}.

(** [exchanges ok s n s' n']: from store [s] and counter [n], a sequence
    of replacements, each satisfying [ok] in the store it is decided in
    and each counted once, leads to [s'] and [n']. *)
Inductive exchanges (ok : Store -> loc -> nat -> Prop)
  : Store -> Z -> Store -> Z -> Prop :=
| exchanges_none s n : exchanges ok s n s n
| exchanges_more s n s' n' l_new id_old :
    exchanges ok s n s' n' ->
    ok s' l_new id_old ->
    exchanges ok s n (install s' l_new id_old) (n' + 1).

(** The store after [logger.debug] recorded [r]. *)
Definition with_log (s : Store) (r : LogRecord) : Store :=
  {| objs := objs s;
     from_individuals := from_individuals s;
     to_individuals := to_individuals s;
     debug_log := debug_log s ++ [r] |}.

(** The replacements a call with the given policy may perform:
    [good_value_old] is the percentile taken before the loop. *)
Definition may_replace (update_threshold : string) (fittest_old : option float)
    (good_value_old : float) (s : Store) (l_new : loc) (id_old : nat) : Prop :=
  exists l_old t,
    to_individuals s !! id_old = Some l_old
    /\ threshold_of update_threshold fittest_old good_value_old l_old s = (Ok t, s)
    /\ accepted t s l_new id_old.

(** ** Example populations *)

(** An individual with coordinates [cs / 10] and an integer fitness. *)
Definition example_individual (cs : list Z) (f : Z) : Individual :=
  {| x := (fun c => F64.lit c 10) <$> cs;
     fitness := F64.of_Z f;
     diversity := F64.of_Z 0 |}.

(** A source population with fitness values 1 and 5 (addresses 0 and 1)
    and a destination population with fitness values 10, 20 and 30
    (addresses 2, 3 and 4). *)
Definition example_store : Store :=
  {| objs := [example_individual [1; 1] 1; example_individual [9; 9] 5;
              example_individual [5; 5] 10; example_individual [2; 8] 20;
              example_individual [8; 2] 30];
     from_individuals := [0; 1]%nat;
     to_individuals := [2; 3; 4]%nat;
     debug_log := [] |}.

(** The same objects with the roles of the two populations swapped. *)
Definition example_store_swapped : Store :=
  {| objs := objs example_store;
     from_individuals := [2; 3; 4]%nat;
     to_individuals := [0; 1]%nat;
     debug_log := [] |}.

(** The destination already holds the point (0.1, 0.1) of the best source
    individual, with the fitness 10. *)
Definition example_store_duplicate : Store :=
  {| objs := [example_individual [1; 1] 1; example_individual [9; 9] 5;
              example_individual [1; 1] 10; example_individual [2; 8] 20;
              example_individual [8; 2] 30];
     from_individuals := [0; 1]%nat;
     to_individuals := [2; 3; 4]%nat;
     debug_log := [] |}.

(** A source individual at the point (0.0001) and a destination member
    at the point (0): the norm of their difference is 1e-4 exactly. *)
Definition example_store_at_threshold : Store :=
  {| objs := [ {| x := [F64.lit 1 10000]; fitness := F64.of_Z 1;
                  diversity := F64.of_Z 0 |};
               {| x := [F64.of_Z 0]; fitness := F64.of_Z 10;
                  diversity := F64.of_Z 0 |} ];
     from_individuals := [0]%nat;
     to_individuals := [1]%nat;
     debug_log := [] |}.

(** A sampler that suggests the first [n_samples] members of the proposal
    (its elite, when the proposal is ordered by fitness). *)
Definition example_select_subsample (proposal : list Individual) (n_samples : Z)
    (_ : strategy) (_ : float) : list (list float) * list nat :=
  let picked := take (Z.to_nat n_samples) proposal in
  (x <$> picked, seq 0 (length picked)).

(** The last [n_samples] positions, last first: the weakest members of a
    proposal ordered by fitness. *)
Definition example_select_weakest_sample (proposal : list Individual)
    (n_samples : Z) : list nat :=
  take (Z.to_nat n_samples) (reverse (seq 0 (length proposal))).

(** The 5th percentile of the fitness values 10, 20 and 30 by linear
    interpolation, 10 + 0.1 * (20 - 10). *)
Definition example_nanpercentile (_ : list float) (_ : Z) : float := F64.of_Z 11.

Definition example_strategy : strategy :=
  (F64.lit 6 10, F64.of_Z 0, F64.of_Z 0, F64.lit 4 10).

(** [a] may stand before [b] in the ranking: the objective values ascend,
    with NaN after every number. *)
Definition best_first (a b : OptimizeResult) : Prop :=
  np.sort_le (fval a) (fval b) = true.

(** ** The exchanges and the runtime refinement of the global loop *)

(** Lines 373-374 and 396-397: the quota of an exchange between the two
    heuristics, [int(min([np.round(.05 * popsize), 5]))].  [min] keeps
    the rounded value unless 5 is below it. *)
Definition n_update_points (popsize : Z) : res Z :=
  x ← py.float_mul_int (F64.lit 5 100) popsize;
  let rounded := np.round x in
  if F64.ltb (F64.of_Z 5) rounded then Ok 5 else py.int rounded.

(** [(.6, .0, .0, .4)] *)
Definition heuristic_strategy : strategy :=
  (F64.lit 6 10, F64.of_Z 0, F64.of_Z 0, F64.lit 4 10).

Section GlobalIteration.

Variable select_subsample :
  list Individual -> Z -> strategy -> float -> list (list float) * list nat.
Variable select_weakest_sample : list Individual -> Z -> list nat.
Variable nanpercentile : list float -> Z -> float.

(** Lines 373-381 and 396-405: one heuristic shares its points with the
    other, gate enabled. *)
Definition share_between_heuristics : M pyval :=
  n ← read (popsize update_from);
  n_update_points ← lift (n_update_points n);
  share_knowledge select_subsample select_weakest_sample nanpercentile
                  n_update_points heuristic_strategy "in between" true.

(** Lines 416-424 and 429-437: an initial refiner shares its points with
    its heuristic, gate disabled, with the quota
    [int(np.round(.2 * update_to.popsize))]. *)
Definition share_from_refiner (update_strategy : strategy) : M pyval :=
  n ← read (popsize update_to);
  x ← lift (py.float_mul_int (F64.lit 2 10) n);
  update_popsize ← lift (int_round x);
  share_knowledge select_subsample select_weakest_sample nanpercentile
                  update_popsize update_strategy "in between" false.

End GlobalIteration.

(** The objects the runtime refinement works on: the [Individual]
    objects by address, the [individuals] lists of the populations of
    the two heuristics, and the counter [self.refinements_run]. *)
Record Optimizers := {
  individual_objs : list Individual;
  cmaes_individuals : list loc;
  diffevol_individuals : list loc;
  refinements_run : nat
}.

Section RuntimeRefine.

(** The sampler, the rescaling functions of util.py and the local solver
    are not among the sources. *)
Variable select_subsample :
  list Individual -> Z -> strategy -> float -> list (list float) * list nat.
Variable rescale_to_bounds unscale_from_bounds : list float -> list float.
Variable minimize : list float -> nat -> OptimizeResult.

(** Modelled from the spec: [Population.merge_populations] of the missing
    population.py, a snapshot holding the individuals of the first
    population followed by those of the second (the order lines 454-459
    rely on). *)
Definition merge_populations (o : Optimizers) : list Individual :=
  ((fun l => individual_objs o !!! l) <$> cmaes_individuals o)
  ++ ((fun l => individual_objs o !!! l) <$> diffevol_individuals o).

(** Lines 464-477: the individual after its local search, started from
    its own point; the diversity is not touched. *)
Definition refined (individual : Individual) (id : nat) : Individual :=
  let tmp_result := minimize (rescale_to_bounds (x individual)) id in
  {| x := unscale_from_bounds (result_x tmp_result);
     fitness := fval tmp_result;
     diversity := diversity individual |}.

(** The body of the loop, lines 453-477: the chosen index of the merged
    population is mapped back to a population and a slot, and the
    individual there is overwritten in place. *)
Definition refine_point (chosen : list nat) (i_point : nat) (o : Optimizers)
  : res unit * Optimizers :=
  match chosen !! i_point with
  | None => (Raise IndexError, o)
  | Some tmp_id =>
      let popsize_cmaes := length (cmaes_individuals o) in
      let '(pop, id) :=
        if decide (popsize_cmaes <= tmp_id)%nat
        then (diffevol_individuals o, (tmp_id - popsize_cmaes)%nat)
        else (cmaes_individuals o, tmp_id) in
      match pop !! id with
      | None => (Raise IndexError, o)
      | Some individual =>
          (Ok (),
           {| individual_objs :=
                <[individual := refined (individual_objs o !!! individual) id]>
                  (individual_objs o);
              cmaes_individuals := cmaes_individuals o;
              diffevol_individuals := diffevol_individuals o;
              refinements_run := refinements_run o |})
      end
  end.

Fixpoint refine_points (chosen : list nat) (i_points : list nat) (o : Optimizers)
  : res unit * Optimizers :=
  match i_points with
  | [] => (Ok (), o)
  | i_point :: rest =>
      match refine_point chosen i_point o with
      | (Ok _, o') => refine_points chosen rest o'
      | (Raise e, o') => (Raise e, o')
      end
  end.

(** The block under ['RuntimeRefine' in self.iterations[iter]], lines
    440-479, with [runtime_refinements] the list
    [self.popsizes['runtime_refinements']]. *)
Definition runtime_refine (runtime_refinements : list Z) (o : Optimizers)
  : res unit * Optimizers :=
  let whole_population := merge_populations o in
  match runtime_refinements !! refinements_run o with
  | None => (Raise IndexError, o)
  | Some n_samples =>
      match py.float_div_int (F64.lit 5 10)
                             (Z.of_nat (length whole_population)) with
      | Raise e => (Raise e, o)
      | Ok ban_distance =>
          let '(refinement_points, selection_info) :=
            select_subsample whole_population n_samples
              (F64.lit 2 10, F64.lit 2 10, F64.lit 5 10, F64.lit 1 10)
              ban_distance in
          match refine_points selection_info
                              (seq 0 (length refinement_points)) o with
          | (Ok _, o') =>
              (Ok (),
               {| individual_objs := individual_objs o';
                  cmaes_individuals := cmaes_individuals o';
                  diffevol_individuals := diffevol_individuals o';
                  refinements_run := S (refinements_run o') |})
          | (Raise e, o') => (Raise e, o')
          end
      end
  end.

End RuntimeRefine.

(** The activation tags in the order one iteration runs them. *)
Definition activation_order : list activation :=
  [CMAES; DiffEvol; InitialRefine; RuntimeRefine].

(** The number of iterations of a schedule that carry the tag [a]. *)
Definition activation_eqb (a b : activation) : bool :=
  match a, b with
  | CMAES, CMAES | DiffEvol, DiffEvol
  | InitialRefine, InitialRefine | RuntimeRefine, RuntimeRefine => true
  | _, _ => false
  end.

Definition activations_of (a : activation) (schedule : list (list activation)) : nat :=
  length (filter (fun entry => existsb (activation_eqb a) entry = true) schedule).

(** What a runtime refinement leaves as it is: the lists of both
    populations, the number of objects, every diversity value and every
    object neither population refers to. *)
Definition refine_frame (o o' : Optimizers) : Prop :=
  cmaes_individuals o' = cmaes_individuals o
  /\ diffevol_individuals o' = diffevol_individuals o
  /\ length (individual_objs o') = length (individual_objs o)
  /\ (forall l, diversity (individual_objs o' !!! l)
                = diversity (individual_objs o !!! l))
  /\ (forall l, l ∉ cmaes_individuals o -> l ∉ diffevol_individuals o ->
        individual_objs o' !!! l = individual_objs o !!! l).

(** Two individuals in one population of CMAES and one of DiffEvol
    (addresses 0, 1 and 2), before any runtime refinement. *)
Definition example_optimizers : Optimizers :=
  {| individual_objs := [example_individual [1; 1] 1; example_individual [9; 9] 5;
                         example_individual [5; 5] 10];
     cmaes_individuals := [0; 1]%nat;
     diffevol_individuals := [2]%nat;
     refinements_run := 0 |}.

(** A local solver that stays at its start point and reports the
    objective value 0 there. *)
Definition example_minimize (x0 : list float) (_ : nat) : OptimizeResult :=
  {| result_x := x0; fval := F64.of_Z 0 |}.
(** * Properties *)

(** ** Results of monadic maps *)

Ltac res_simpl := cbn [mbind mret res_bind res_ret].

Lemma mapM_res_Forall2 {A B} (f : A -> res B) (l : list A) (k : list B) :
  mapM f l = Ok k -> Forall2 (fun a b => f a = Ok b) l k.
Proof.
  revert k. induction l as [|a l IH]; intros k; cbn.
  - intros [= <-]. constructor.
  - destruct (f a) as [b|e] eqn:Hfa; cbn; [|discriminate].
    destruct (mapM f l) as [k'|e]; cbn; [|discriminate].
    intros [= <-]. constructor; auto.
Qed.

(** ** Budget allocation *)

(** A resolved pair of CMAES either keeps the maximal iteration count or
    has the constant [lb_iterations_CMAES] as its population size. *)
Lemma resolve_CMAES_inv self budget p n :
  resolve_CMAES self budget = Ok (p, n) ->
  n = max_iter_CMAES \/ p = lb_iterations_CMAES.
Proof.
  unfold resolve_CMAES.
  destruct (lb_popsize_CMAES self) as [lb|]; res_simpl; [|discriminate].
  destruct (attempted_popsize budget max_iter_CMAES) as [a|]; res_simpl;
    [|discriminate].
  destruct (F64.gtb a lb).
  - destruct (py.int a); res_simpl; [|discriminate]. intros [= _ <-]. now left.
  - destruct (py.float_of_int budget) as [b|]; res_simpl; [|discriminate].
    destruct (F64.ltb _ _); [discriminate|].
    destruct (py.int _); res_simpl; [|discriminate]. intros [= <- _]. now right.
Qed.

(** The same for DiffEvol and [lb_iterations_DiffEvol]. *)
Lemma resolve_DiffEvol_inv self budget p n :
  resolve_DiffEvol self budget = Ok (p, n) ->
  n = max_iter_DE \/ p = lb_iterations_DiffEvol.
Proof.
  unfold resolve_DiffEvol.
  destruct (attempted_popsize budget max_iter_DE) as [a|]; res_simpl;
    [|discriminate].
  destruct (py.float_of_int (lb_popsize_DE self)) as [lb|]; res_simpl;
    [|discriminate].
  destruct (F64.gtb a lb).
  - destruct (py.int a); res_simpl; [|discriminate]. intros [= _ <-]. now left.
  - destruct (py.int_truediv budget _) as [q|]; res_simpl; [|discriminate].
    destruct (F64.ltb _ _); [discriminate|].
    destruct (py.int _); res_simpl; [|discriminate]. intros [= <- _]. now right.
Qed.

(** The fallback of CMAES: when the attempted population size does not
    exceed the lower bound and the pair is resolved, the iteration count
    is floor(budget / lower bound), and the population size is the
    constant [lb_iterations_CMAES], whatever the lower bound is. *)
Lemma resolve_CMAES_fallback self budget lb a b p n :
  lb_popsize_CMAES self = Ok lb ->
  attempted_popsize budget max_iter_CMAES = Ok a ->
  F64.gtb a lb = false ->
  py.float_of_int budget = Ok b ->
  resolve_CMAES self budget = Ok (p, n) ->
  p = lb_iterations_CMAES /\ py.int (np.floor (F64.div b lb)) = Ok n.
Proof.
  intros Hlb Ha Hgt Hb. unfold resolve_CMAES.
  rewrite Hlb; res_simpl. rewrite Ha; res_simpl. rewrite Hgt, Hb; res_simpl.
  destruct (F64.ltb _ _); [discriminate|].
  destruct (py.int _) as [n'|]; res_simpl; [|discriminate].
  intros [= <- <-]. auto.
Qed.

(** The fallback of DiffEvol, with [lb_iterations_DiffEvol]. *)
Lemma resolve_DiffEvol_fallback self budget lb a q p n :
  attempted_popsize budget max_iter_DE = Ok a ->
  py.float_of_int (lb_popsize_DE self) = Ok lb ->
  F64.gtb a lb = false ->
  py.int_truediv budget (lb_popsize_DE self) = Ok q ->
  resolve_DiffEvol self budget = Ok (p, n) ->
  p = lb_iterations_DiffEvol /\ py.int (np.floor q) = Ok n.
Proof.
  intros Ha Hlb Hgt Hq. unfold resolve_DiffEvol.
  rewrite Ha; res_simpl. rewrite Hlb; res_simpl. rewrite Hgt, Hq; res_simpl.
  destruct (F64.ltb _ _); [discriminate|].
  destruct (py.int _) as [n'|]; res_simpl; [|discriminate].
  intros [= <- <-]. auto.
Qed.

(** C1, evaluated on the code.  With 20 multi-starts, two parameters and
    the default units the allocator accepts the input and gives CMAES the
    sub-budget 3200, the population size 50 and 80 iterations:
    50 * 80 = 4000 exceeds the sub-budget. *)
Theorem distribute_budget_CMAES_exceeds_sub_budget :
  exists a, distribute_budget (init 20 500 None 2) = Ok a
    /\ budget_CMAES (budgets a) = 3200
    /\ popsize_CMAES (popsizes a) = 50
    /\ n_iter_CMAES (n_iterations a) = 80
    /\ ~ popsize_CMAES (popsizes a) * n_iter_CMAES (n_iterations a)
          <= budget_CMAES (budgets a).
Proof.
  eexists. split; [vm_compute; reflexivity|].
  cbn. repeat split; lia.
Qed.

(** C2, evaluated on the code.  On the same input both heuristics take
    the fallback: the attempted population sizes 5 and 31 do not clear
    the lower bound 40, and the iteration counts floor(3200 / 40) = 80
    and floor(4800 / 40) = 120 clear the bounds 50 and 25.  The iteration
    counts are resolved as stated, but the population sizes are resolved
    to the iteration bounds 50 and 25, not to the lower bound 40. *)
Theorem distribute_budget_fallback_popsize_is_iteration_bound :
  let self := init 20 500 None 2 in
  exists a, distribute_budget self = Ok a
    /\ lb_popsize_CMAES self = Ok (F64.of_Z 40)
    /\ attempted_popsize (budget_CMAES (budgets a)) max_iter_CMAES = Ok (F64.of_Z 5)
    /\ n_iter_CMAES (n_iterations a) = 80
    /\ popsize_CMAES (popsizes a) = lb_iterations_CMAES
    /\ lb_popsize_DE self = 40
    /\ attempted_popsize (budget_DiffEvol (budgets a)) max_iter_DE = Ok (F64.of_Z 31)
    /\ n_iter_DiffEvol (n_iterations a) = 120
    /\ popsize_DiffEvol (popsizes a) = lb_iterations_DiffEvol.
Proof.
  eexists. split; [vm_compute; reflexivity|].
  repeat split; vm_compute; reflexivity.
Qed.

(** ** Iteration schedule *)

(** The integer part of a finite float is its value [m * 2^e], as a
    fraction, divided toward zero. *)
Lemma trunc_toward_zero s m e :
  F64.trunc (S754_finite s m e)
  = Some (Z.quot (cond_Zopp s (Zpos m) * 2 ^ Z.max 0 e) (2 ^ Z.max 0 (- e))).
Proof.
  cbn [F64.trunc]. f_equal.
  destruct (Z.le_gt_cases 0 e) as [He|He].
  - rewrite Z.shiftl_mul_pow2 by lia.
    rewrite (Z.max_r 0 e), (Z.max_l 0 (- e)) by lia.
    rewrite Z.pow_0_r, Z.quot_1_r. destruct s; cbn [cond_Zopp]; lia.
  - rewrite Z.shiftl_div_pow2 by lia.
    rewrite (Z.max_l 0 e), (Z.max_r 0 (- e)) by lia.
    rewrite Z.pow_0_r, Z.mul_1_r.
    assert (0 < 2 ^ (- e)) by (apply Z.pow_pos_nonneg; lia).
    destruct s; cbn [cond_Zopp].
    + rewrite Z.quot_opp_l by lia. rewrite Z.quot_div_nonneg by lia. reflexivity.
    + rewrite Z.quot_div_nonneg by lia. reflexivity.
Qed.

Lemma linspace_open_lookup start stop num pts :
  np.linspace start stop num false = Ok pts ->
  length pts = Z.to_nat num /\
  forall i : nat, (i < Z.to_nat num)%nat ->
    pts !! i = Some (np.linspace_sample start stop num (Z.of_nat i)).
Proof.
  unfold np.linspace. destruct (num <? 0); [discriminate|].
  cbn [andb]. intros [= <-]. split.
  - now rewrite length_fmap, length_seq.
  - intros i Hi. rewrite list_lookup_fmap, lookup_seq_lt by lia. reflexivity.
Qed.

(** C3, as the code has it.  The list of call indices has [n_X] entries,
    and entry [i] is the integer part (toward zero) of the [i]-th sample
    [i * (n_global / n_X)] of the linear spacing, computed in binary64. *)
Theorem calls_to_truncates n_global n_X calls :
  calls_to n_global n_X = Ok calls ->
  length calls = Z.to_nat n_X /\
  forall (i : nat) (z : Z),
    calls !! i = Some z <->
    (i < Z.to_nat n_X)%nat /\
    F64.trunc (np.linspace_sample (F64.of_Z 0) (F64.of_Z n_global) n_X (Z.of_nat i))
    = Some z.
Proof.
  unfold calls_to, py.float_of_int.
  destruct (F64.is_inf (F64.of_Z n_global)); cbn; [discriminate|].
  destruct (np.linspace _ _ _ _) as [pts|] eqn:Hpts; cbn; [|discriminate].
  intros Hmap. apply mapM_res_Forall2 in Hmap.
  apply linspace_open_lookup in Hpts as [Hlen Hpts].
  pose proof (Forall2_length _ _ _ Hmap) as Hlen'.
  split; [lia|]. intros i z. split.
  - intros Hi. pose proof (lookup_lt_Some _ _ _ Hi) as Hlt.
    split; [lia|].
    destruct (Forall2_lookup_r _ _ _ _ _ Hmap Hi) as (v & Hv & Hint).
    rewrite Hpts in Hv by lia. injection Hv as <-.
    unfold py.int in Hint. destruct (F64.trunc _); [congruence|].
    destruct (F64.is_nan _); discriminate.
  - intros [Hlt Htr].
    destruct (Forall2_lookup_l _ _ _ i _ Hmap (Hpts i Hlt)) as (z' & Hz' & Hint).
    unfold py.int in Hint. rewrite Htr in Hint. congruence.
Qed.

Lemma calls_to_truncates_witness :
  exists calls, calls_to 400 150 = Ok calls /\ calls !! 2%nat = Some 5.
Proof.
  eexists. split; [vm_compute; reflexivity|].
  apply (calls_to_truncates 400 150); [vm_compute; reflexivity|].
  split; [lia | vm_compute; reflexivity].
Defined.

(** C3, as stated, fails.  With the default 50 multi-starts and ten
    parameters the allocator gives 400 outer iterations and DiffEvol 150
    of them; the second call index of DiffEvol is 2, while the evenly
    spaced value 400 / 150 = 2.67 is nearest to 3. *)
Lemma calls_to_DiffEvol_not_nearest :
  exists a calls,
    distribute_budget (init 50 500 None 10) = Ok a
    /\ n_iter_global (n_iterations a) = 400
    /\ n_iter_DiffEvol (n_iterations a) = 150
    /\ calls_to 400 150 = Ok calls
    /\ calls !! 1%nat = Some 2
    /\ ~ nearest_integer 2 (1 * 400) 150.
Proof.
  do 2 eexists. split; [vm_compute; reflexivity|].
  do 2 (split; [reflexivity|]).
  split; [vm_compute; reflexivity|].
  split; [reflexivity|].
  unfold nearest_integer. lia.
Qed.

(** ** Knowledge exchange *)

Ltac M_simpl := cbv [mbind mret M_bind M_ret].

Lemma threshold_of_store update_threshold fittest_old good_value_old l s r s' :
  threshold_of update_threshold fittest_old good_value_old l s = (r, s') ->
  s' = s.
Proof.
  unfold threshold_of, read, raise.
  repeat match goal with
         | |- context [if ?b then _ else _] => destruct b
         | |- context [match ?o with Some _ => _ | None => _ end] => destruct o
         end; M_simpl; congruence.
Qed.

Lemma threshold_of_only_best fittest_old good_value_old l s t :
  threshold_of "only best" fittest_old good_value_old l s = (Ok t, s) ->
  fittest_old = Some t.
Proof.
  unfold threshold_of. cbn [String.eqb Ascii.eqb Bool.eqb].
  destruct fittest_old; M_simpl; unfold raise; congruence.
Qed.

(** One pass of the loop body either leaves the store as it is (and the
    counter, unless it raises), or performs exactly one accepted
    replacement and counts it. *)
Lemma exchange_point_inv chosen weakest_inds update_threshold fittest_old
    good_value_old n i s r s' :
  exchange_point chosen weakest_inds update_threshold fittest_old
                 good_value_old n i s = (r, s') ->
  (s' = s /\ (r = Ok n \/ exists e, r = Raise e)) \/
  (exists id_new l_new id_old l_old t,
      chosen !! i = Some id_new
      /\ from_individuals s !! id_new = Some l_new
      /\ weakest_inds !! i = Some id_old
      /\ to_individuals s !! id_old = Some l_old
      /\ threshold_of update_threshold fittest_old good_value_old l_old s
         = (Ok t, s)
      /\ accepted t s l_new id_old
      /\ r = Ok (n + 1)
      /\ s' = install s l_new id_old).
Proof.
  unfold exchange_point, individual_at, index, read, raise.
  destruct (chosen !! i) as [id_new|] eqn:Hc; M_simpl;
    [|intros [= <- <-]; left; eauto].
  cbn [individuals].
  destruct (from_individuals s !! id_new) as [l_new|] eqn:Hf; M_simpl;
    [|intros [= <- <-]; left; eauto].
  destruct (weakest_inds !! i) as [id_old|] eqn:Hw; M_simpl;
    [|intros [= <- <-]; left; eauto].
  destruct (to_individuals s !! id_old) as [l_old|] eqn:Ht; M_simpl;
    [|intros [= <- <-]; left; eauto].
  destruct (threshold_of _ _ _ _ s) as [[t|e] s1] eqn:Hth;
    pose proof (threshold_of_store _ _ _ _ _ _ _ Hth) as ->;
    [|intros [= <- <-]; left; eauto].
  destruct (F64.ltb (fitness (deref s l_new)) t) eqn:Hlt; M_simpl;
    [|intros [= <- <-]; left; eauto].
  destruct (point_already_in_population _ _) eqn:Hdup; M_simpl;
    [intros [= <- <-]; left; eauto|].
  unfold deepcopy, set_individual. cbn.
  destruct (decide _) as [_|Hout];
    [|destruct Hout; eapply lookup_lt_Some; eauto].
  intros [= <- <-]. right. exists id_new, l_new, id_old, l_old, t.
  repeat split; auto.
  - eapply list_elem_of_lookup_2; eauto.
  - eapply lookup_lt_Some; eauto.
Qed.

(** The loop: a sequence of accepted replacements, counted one by one,
    no more than the passes made. *)
Lemma for_each_exchange_point chosen weakest_inds update_threshold fittest_old
    good_value_old (ixs : list nat) n s r s' :
  for_each (exchange_point chosen weakest_inds update_threshold fittest_old
                           good_value_old) ixs n s = (r, s') ->
  exists n',
    exchanges (may_replace update_threshold fittest_old good_value_old)
              s n s' n'
    /\ n <= n' <= n + Z.of_nat (length ixs)
    /\ (forall v, r = Ok v -> v = n').
Proof.
  revert n s. induction ixs as [|i ixs IH]; intros n s; cbn [for_each].
  - M_simpl. intros [= <- <-]. exists n. split; [constructor|].
    split; [cbn; lia|]. now intros v [= <-].
  - unfold mbind at 1, M_bind at 1.
    destruct (exchange_point _ _ _ _ _ n i s) as [[n1|e] s1] eqn:Hstep;
      apply exchange_point_inv in Hstep.
    + destruct Hstep as [[-> Hr]|(id_new & l_new & id_old & l_old & t & Hc & Hf
                                   & Hw & Ht & Hth & Hacc & Hr & ->)].
      * destruct Hr as [[= ->]|[e [=]]]. intros Hloop.
        destruct (IH _ _ Hloop) as (n' & Hex & Hn & Hv).
        exists n'. split; [exact Hex|]. split; [cbn [length]; lia | exact Hv].
      * injection Hr as ->. intros Hloop.
        destruct (IH _ _ Hloop) as (n' & Hex & Hn & Hv).
        exists n'. split; [|split; [cbn [length]; lia | exact Hv]].
        clear - Hex Ht Hth Hacc.
        remember (install s l_new id_old) as s0 eqn:Hs0.
        remember (n + 1) as n0 eqn:Hn0.
        induction Hex as [s0 n0|s0 n0 s2 n2 l2 id2 Hex IHex Hok]; subst.
        -- apply exchanges_more; [constructor|]. red. eauto.
        -- apply exchanges_more; auto.
    + destruct Hstep as [[-> _]|(? & ? & ? & ? & ? & _ & _ & _ & _ & _ & _ & [=] & _)].
      intros [= <- <-]. exists n. split; [constructor|].
      split; [lia | discriminate].
Qed.

(** What a sequence of replacements leaves alone and what it adds:
    [update_from] and the log are as before, the objects of [s] keep
    their addresses and values, one object is added for each replacement
    counted, and every slot of [update_to] holds what it held or a
    reference to an added object. *)
Lemma exchanges_frame ok s n s' n' :
  exchanges ok s n s' n' ->
  from_individuals s' = from_individuals s
  /\ debug_log s' = debug_log s
  /\ length (to_individuals s') = length (to_individuals s)
  /\ (exists news, objs s' = objs s ++ news /\ Z.of_nat (length news) = n' - n)
  /\ (forall i l, to_individuals s' !! i = Some l ->
        to_individuals s !! i = Some l
        \/ (length (objs s) <= l < length (objs s'))%nat).
Proof.
  induction 1 as [s n|s n s' n' l_new id_old Hex IH Hok].
  - repeat split; auto. exists []. rewrite app_nil_r. split; [auto|cbn; lia].
  - destruct IH as (Hfrom & Hlog & Hlen & (news & Hobjs & Hnews) & Hto).
    cbn [install from_individuals debug_log to_individuals objs].
    repeat split; auto.
    + now rewrite length_insert.
    + exists (news ++ [deref s' l_new]). rewrite Hobjs, <- app_assoc.
      split; [reflexivity|]. rewrite length_app. cbn [length]. lia.
    + intros i l Hl. rewrite length_app. cbn [length].
      destruct (decide (i = id_old)) as [->|Hne].
      * destruct (decide (id_old < length (to_individuals s'))%nat) as [Hlt|Hge].
        -- rewrite list_lookup_insert_eq in Hl by exact Hlt. injection Hl as <-.
           right. rewrite Hobjs, length_app. lia.
        -- rewrite list_insert_ge in Hl by lia.
           destruct (Hto _ _ Hl) as [?|?]; [now left | right; lia].
      * rewrite list_lookup_insert_ne in Hl by congruence.
        destruct (Hto _ _ Hl) as [?|?]; [now left | right; lia].
Qed.

Lemma exchanges_impl (ok ok' : Store -> loc -> nat -> Prop) s n s' n' :
  (forall s1 l id, ok s1 l id -> ok' s1 l id) ->
  exchanges ok s n s' n' -> exchanges ok' s n s' n'.
Proof. intros Himpl. induction 1; econstructor; eauto. Qed.

(** When every replacement was accepted against one threshold [t], every
    added object has a fitness strictly below [t]. *)
Lemma exchanges_added_below t s n s' n' :
  exchanges (accepted t) s n s' n' ->
  forall l, (length (objs s) <= l < length (objs s'))%nat ->
    F64.ltb (fitness (deref s' l)) t = true.
Proof.
  induction 1 as [s n|s n s' n' l_new id_old Hex IH Hok]; intros l Hl; [lia|].
  pose proof (exchanges_frame _ _ _ _ _ Hex) as (_ & _ & _ & (news & Hobjs & _) & _).
  unfold deref in *. cbn [install objs] in *.
  rewrite length_app in Hl. cbn [length] in Hl.
  destruct (decide (l = length (objs s'))) as [->|Hne].
  - rewrite lookup_total_app_r by lia. rewrite Nat.sub_diag. cbn.
    apply (accepted_fitness _ _ _ _ Hok).
  - rewrite lookup_total_app_l by lia. apply IH. lia.
Qed.

(** Every object a sequence of replacements adds is a copy of an
    individual of [update_from]. *)
Lemma exchanges_added_copies s n s' n' :
  Forall (fun l => (l < length (objs s))%nat) (from_individuals s) ->
  exchanges (fun s1 l_new _ => l_new ∈ from_individuals s1) s n s' n' ->
  forall l, (length (objs s) <= l < length (objs s'))%nat ->
    exists l_src, l_src ∈ from_individuals s /\ deref s' l = deref s l_src.
Proof.
  intros Hlive. rewrite Forall_forall in Hlive.
  induction 1 as [s n|s n s' n' l_new id_old Hex IH Hok]; intros l Hl; [lia|].
  pose proof (exchanges_frame _ _ _ _ _ Hex) as (Hfrom & _ & _ & (news & Hobjs & _) & _).
  unfold deref in *. cbn [install objs] in *.
  rewrite length_app in Hl. cbn [length] in Hl.
  destruct (decide (l = length (objs s'))) as [->|Hne].
  - rewrite lookup_total_app_r by lia. rewrite Nat.sub_diag. cbn.
    rewrite Hfrom in Hok. exists l_new. split; [exact Hok|].
    unfold deref. rewrite Hobjs. apply lookup_total_app_l. now apply Hlive.
  - rewrite lookup_total_app_l by lia. apply IH; [exact Hlive|lia].
Qed.

(** When no replacement is acceptable in the store [s], a sequence of
    replacements from [s] is empty. *)
Lemma exchanges_blocked ok s n s' n' :
  (forall l_new id_old, ~ ok s l_new id_old) ->
  exchanges ok s n s' n' -> s' = s /\ n' = n.
Proof.
  intros Hblocked. induction 1 as [s n|s n s' n' l_new id_old Hex IH Hok];
    [auto|].
  destruct (IH Hblocked) as [-> ->]. destruct (Hblocked _ _ Hok).
Qed.

Section ShareKnowledge.

Variable select_subsample :
  list Individual -> Z -> strategy -> float -> list (list float) * list nat.
Variable select_weakest_sample : list Individual -> Z -> list nat.
Variable nanpercentile : list float -> Z -> float.

Local Abbreviation run_exchange :=
  (exchange select_subsample select_weakest_sample nanpercentile).
Local Abbreviation run_share_knowledge :=
  (share_knowledge select_subsample select_weakest_sample nanpercentile).

(** The part after the gate either fails before the sampler is called,
    or runs the loop over the suggested points: a sequence of
    replacements from the store of the call, after which the count is
    logged; an exception from the loop body ends the call without the
    log record. *)
Lemma exchange_inv update_popsize update_strategy update_threshold
    fittest_old s r s' :
  run_exchange update_popsize update_strategy update_threshold fittest_old s
  = (r, s') ->
  (s' = s /\ exists e, r = Raise e) \/
  (exists ban_distance n' s1,
      py.float_div_int (F64.lit 25 100) (popsize update_from s) = Ok ban_distance
      /\ exchanges (may_replace update_threshold fittest_old
                      (nanpercentile (get_fitness update_to s) 5)) s 0 s1 n'
      /\ 0 <= n' <= Z.of_nat (length (select_subsample (members update_from s)
                         update_popsize update_strategy ban_distance).1)
      /\ ((r = Ok PyNone /\ s' = with_log s1 (Exchanged n' update_popsize))
          \/ (s' = s1 /\ exists e, r = Raise e))).
Proof.
  unfold exchange, read, lift, debug. M_simpl.
  destruct (py.float_div_int _ _) as [ban|e] eqn:Hban;
    [|intros [= <- <-]; left; eauto].
  destruct (select_subsample _ _ _ ban) as [pts chosen] eqn:Hsel.
  destruct (for_each _ _ _ s) as [[n'|e] s1] eqn:Hloop;
    apply for_each_exchange_point in Hloop as (c & Hex & Hc & Hv);
    rewrite length_seq in Hc; intros [= <- <-]; right;
    exists ban, c, s1; rewrite Hsel; cbn [fst].
  - rewrite (Hv _ eq_refl). split; [reflexivity|]. split; [exact Hex|].
    split; [lia|]. left. split; reflexivity.
  - split; [reflexivity|]. split; [exact Hex|]. split; [lia|]. right. eauto.
Qed.

(** Every way a call of [_share_knowledge] can end. *)
Lemma share_knowledge_inv update_popsize update_strategy update_threshold
    only_if_new_best_point s r s' :
  run_share_knowledge update_popsize update_strategy update_threshold
                      only_if_new_best_point s = (r, s') ->
  (s' = s /\ exists e, r = Raise e)
  \/ (only_if_new_best_point = true /\ r = Ok PyNone
      /\ s' = with_log s (NoneExchanged update_popsize))
  \/ (exists fittest_old ban_distance n' s1,
        (if only_if_new_best_point
         then exists f, np.nanmin (get_fitness update_to s) = Ok f
                        /\ fittest_old = Some f
         else fittest_old = None)
        /\ py.float_div_int (F64.lit 25 100) (popsize update_from s)
           = Ok ban_distance
        /\ exchanges (may_replace update_threshold fittest_old
                        (nanpercentile (get_fitness update_to s) 5)) s 0 s1 n'
        /\ 0 <= n' <= Z.of_nat (length (select_subsample (members update_from s)
                           update_popsize update_strategy ban_distance).1)
        /\ ((r = Ok PyNone /\ s' = with_log s1 (Exchanged n' update_popsize))
            \/ (s' = s1 /\ exists e, r = Raise e))).
Proof.
  unfold share_knowledge.
  destruct only_if_new_best_point.
  - unfold read, lift, debug. M_simpl.
    destruct (np.nanmin (get_fitness update_to s)) as [fo|e] eqn:Hfo;
      [|intros [= <- <-]; left; eauto].
    destruct (np.nanmin (get_fitness update_from s)) as [fn|e] eqn:Hfn;
      [|intros [= <- <-]; left; eauto].
    destruct (F64.ltb fn fo); cbn [negb].
    + intros Hex. apply exchange_inv in Hex as [?|(ban & n' & s1 & ? & ? & ? & ?)];
        [now left|].
      right; right. exists (Some fo), ban, n', s1.
      split; [exists fo; auto|]. auto.
    + intros [= <- <-]. right; left. repeat split.
  - intros Hex. apply exchange_inv in Hex as [?|(ban & n' & s1 & ? & ? & ? & ?)];
      [now left|].
    right; right. exists None, ban, n', s1. auto.
Qed.


(** C5, as the code has it.  Under the policy "only best" every
    individual a call puts into [update_to] has a fitness strictly below
    the best fitness [update_to] had when the call began (the value the
    gate computed), whatever was inserted earlier in the same call. *)
Theorem only_best_inserts_below_initial_best update_popsize update_strategy
    only_if_new_best_point s r s' :
  run_share_knowledge update_popsize update_strategy "only best"
                      only_if_new_best_point s = (r, s') ->
  forall i l, to_individuals s' !! i = Some l ->
    to_individuals s !! i = Some l
    \/ (exists fittest_old,
          np.nanmin (get_fitness update_to s) = Ok fittest_old
          /\ F64.ltb (fitness (deref s' l)) fittest_old = true).
Proof.
  intros Hcall i l Hl. apply share_knowledge_inv in Hcall
    as [[-> _]|[(_ & _ & ->)|(fo & ban & n' & s1 & Hfo & Hban & Hex & Hn & Hend)]];
    [now left | now left |].
  assert (to_individuals s' = to_individuals s1 /\ objs s' = objs s1) as [Hto Hobjs]
    by (destruct Hend as [[_ ->]|[-> _]]; split; reflexivity).
  rewrite Hto in Hl. unfold deref. rewrite Hobjs.
  destruct (exchanges_frame _ _ _ _ _ Hex) as (_ & _ & _ & _ & Hslots).
  destruct (Hslots _ _ Hl) as [?|Hfresh]; [now left|right].
  destruct fo as [f|].
  - destruct only_if_new_best_point; [|discriminate].
    destruct Hfo as (f' & Hmin & [= <-]). exists f. split; [exact Hmin|].
    eapply (exchanges_added_below f s 0 s1 n'); [|exact Hfresh].
    eapply exchanges_impl; [|exact Hex].
    intros s2 l2 id2 (l_old & t & _ & Hth & Hacc).
    apply threshold_of_only_best in Hth as [= ->]. exact Hacc.
  - exfalso. clear - Hex Hfresh.
    assert (objs s1 = objs s) as Heq; [|rewrite Heq in Hfresh; lia].
    induction Hex as [|s0 n0 s2 n2 l2 id2 _ _ (l_old & t & _ & Hth & _)];
      [reflexivity|].
    apply threshold_of_only_best in Hth. discriminate.
Qed.

(** C6.  With the gate enabled, when the best (NaN-aware minimum)
    fitness of [update_from] is not strictly below that of [update_to],
    the call returns at once: nothing is replaced, the objects and both
    populations are as before, and the log gains the record of an
    exchange of none of the points. *)
Theorem gate_blocks_exchange update_popsize update_strategy update_threshold
    s fittest_old fittest_new :
  np.nanmin (get_fitness update_to s) = Ok fittest_old ->
  np.nanmin (get_fitness update_from s) = Ok fittest_new ->
  F64.ltb fittest_new fittest_old = false ->
  exists s',
    run_share_knowledge update_popsize update_strategy update_threshold true s
    = (Ok PyNone, s')
    /\ objs s' = objs s
    /\ to_individuals s' = to_individuals s
    /\ from_individuals s' = from_individuals s
    /\ debug_log s' = debug_log s ++ [NoneExchanged update_popsize].
Proof.
  intros Hold Hnew Hlt. exists (with_log s (NoneExchanged update_popsize)).
  split; [|repeat split].
  unfold share_knowledge, read, lift, debug. M_simpl.
  rewrite Hold, Hnew, Hlt. reflexivity.
Qed.

(** C7, as the code has it.  A pass of the loop body whose candidate
    lies closer than 1e-4 to some member of [update_to] (the Euclidean
    norm of the difference, computed in binary64, is strictly below
    1e-4) replaces nothing: the store is as before the pass and the
    count is not raised. *)
Theorem duplicate_guard chosen weakest_inds update_threshold fittest_old
    good_value_old points_exchanged i_vector s id_new individual_new
    tmp_ind_old r s' :
  chosen !! i_vector = Some id_new ->
  from_individuals s !! id_new = Some individual_new ->
  tmp_ind_old ∈ members update_to s ->
  F64.ltb (np.linalg_norm (np.subtract (x (deref s individual_new))
                                       (x tmp_ind_old)))
          (F64.lit 1 10000) = true ->
  exchange_point chosen weakest_inds update_threshold fittest_old
                 good_value_old points_exchanged i_vector s = (r, s') ->
  s' = s /\ (r = Ok points_exchanged \/ exists e, r = Raise e).
Proof.
  intros Hc Hf Hin Hnear Hstep.
  apply exchange_point_inv in Hstep
    as [?|(id' & l' & id_old & l_old & t & Hc' & Hf' & _ & _ & _ & Hacc & _)];
    [assumption|exfalso].
  rewrite Hc in Hc'. injection Hc' as <-.
  rewrite Hf in Hf'. injection Hf' as <-.
  pose proof (accepted_fresh _ _ _ _ Hacc) as Hfresh.
  unfold point_already_in_population in Hfresh.
  assert (existsb (fun tmp => F64.ltb (np.linalg_norm
            (np.subtract (x (deref s individual_new)) (x tmp)))
            (F64.lit 1 10000)) (members update_to s) = true) as Hex.
  { apply existsb_exists. exists tmp_ind_old. split; [|exact Hnear].
    now apply list_elem_of_In. }
  congruence.
Qed.

(** When every individual of [update_from] already has a member of
    [update_to] closer than 1e-4, the whole call replaces nothing. *)
Lemma duplicates_block_the_call update_popsize update_strategy
    update_threshold only_if_new_best_point s r s' :
  (forall l_new, l_new ∈ from_individuals s ->
     point_already_in_population (deref s l_new) (members update_to s) = true) ->
  run_share_knowledge update_popsize update_strategy update_threshold
                      only_if_new_best_point s = (r, s') ->
  objs s' = objs s /\ to_individuals s' = to_individuals s.
Proof.
  intros Hdup Hcall. apply share_knowledge_inv in Hcall
    as [[-> _]|[(_ & _ & ->)|(fo & ban & n' & s1 & _ & _ & Hex & _ & Hend)]];
    [auto | auto |].
  apply exchanges_blocked in Hex as [-> _].
  - destruct Hend as [[_ ->]|[-> _]]; auto.
  - intros l_new id_old (l_old & t & _ & _ & Hacc).
    pose proof (accepted_fresh _ _ _ _ Hacc) as Hfresh.
    rewrite (Hdup _ (accepted_source _ _ _ _ Hacc)) in Hfresh. discriminate.
Qed.

(** C8.  Whatever the outcome of a call, [update_from] lists the same
    references as before, every object that existed before the call has
    its value (so the individuals of [update_from] are unchanged), and
    every reference the call wrote into [update_to] is the address of an
    object allocated by the call, a copy of an individual of
    [update_from]: no individual becomes shared between the two
    populations. *)
Theorem share_knowledge_source_untouched update_popsize update_strategy
    update_threshold only_if_new_best_point s r s' :
  Forall (fun l => (l < length (objs s))%nat) (from_individuals s) ->
  run_share_knowledge update_popsize update_strategy update_threshold
                      only_if_new_best_point s = (r, s') ->
  from_individuals s' = from_individuals s
  /\ members update_from s' = members update_from s
  /\ (forall l, (l < length (objs s))%nat -> objs s' !! l = objs s !! l)
  /\ (forall l, l ∈ to_individuals s' ->
        l ∈ to_individuals s
        \/ ((length (objs s) <= l)%nat
            /\ exists l_src, l_src ∈ from_individuals s
                             /\ deref s' l = deref s l_src))
  /\ (forall l, l ∈ from_individuals s' -> l ∈ to_individuals s' ->
        l ∈ to_individuals s).
Proof.
  intros Hlive Hcall. pose proof Hlive as Hlive'. rewrite Forall_forall in Hlive.
  assert (exists s1 n',
            exchanges (fun s2 l_new _ => l_new ∈ from_individuals s2) s 0 s1 n'
            /\ from_individuals s' = from_individuals s1
            /\ to_individuals s' = to_individuals s1
            /\ objs s' = objs s1) as (s1 & n' & Hex & Hf & Ht & Ho).
  { apply share_knowledge_inv in Hcall
      as [[-> _]|[(_ & _ & ->)|(fo & ban & n' & s1 & _ & _ & Hex & _ & Hend)]].
    - exists s, 0. split; [constructor|auto].
    - exists s, 0. split; [constructor|auto].
    - exists s1, n'. split.
      + eapply exchanges_impl; [|exact Hex].
        intros s2 l2 id2 (l_old & t & _ & _ & Hacc).
        apply (accepted_source _ _ _ _ Hacc).
      + destruct Hend as [[_ ->]|[-> _]]; auto. }
  pose proof (exchanges_added_copies _ _ _ _ Hlive' Hex) as Hcopies.
  apply exchanges_frame in Hex as (Hfrom & _ & _ & (news & Hobjs & _) & Hslots).
  assert (forall l, (l < length (objs s))%nat -> objs s' !! l = objs s !! l) as Hkeep.
  { intros l Hl. rewrite Ho, Hobjs. now apply lookup_app_l. }
  assert (forall l, l ∈ to_individuals s' ->
            l ∈ to_individuals s
            \/ ((length (objs s) <= l)%nat
                /\ exists l_src, l_src ∈ from_individuals s
                                 /\ deref s' l = deref s l_src)) as Hnew.
  { intros l Hin. rewrite Ht in Hin. apply list_elem_of_lookup_1 in Hin as [i Hi].
    destruct (Hslots _ _ Hi) as [Hold|Hfresh].
    - left. eapply list_elem_of_lookup_2; eauto.
    - right. split; [lia|]. unfold deref at 1. rewrite Ho. now apply Hcopies. }
  split; [congruence|]. split; [|split; [exact Hkeep|split; [exact Hnew|]]].
  - unfold members. cbn [individuals]. rewrite Hf, Hfrom.
    apply list_fmap_ext. intros i l Hl. unfold deref.
    assert (l < length (objs s))%nat as Hlt
      by (apply Hlive; eapply list_elem_of_lookup_2; eauto).
    rewrite !list_lookup_total_alt, Hkeep by exact Hlt. reflexivity.
  - intros l Hlf Hlt. destruct (Hnew _ Hlt) as [?|[Hge _]]; [assumption|exfalso].
    rewrite Hf, Hfrom in Hlf. apply Hlive in Hlf. lia.
Qed.

(** C10.  With the gate disabled and the policy "only best", a call that
    reaches the loop with a first candidate and a first slot raises the
    unbound-variable error at the threshold, before anything is
    replaced: [fittest_old] is assigned only behind the gate. *)
Theorem only_best_without_gate_is_unbound update_popsize update_strategy s
    ban_distance id_new individual_new id_old individual_old :
  py.float_div_int (F64.lit 25 100) (popsize update_from s) = Ok ban_distance ->
  (select_subsample (members update_from s) update_popsize update_strategy
                    ban_distance).1 <> [] ->
  (select_subsample (members update_from s) update_popsize update_strategy
                    ban_distance).2 !! 0%nat = Some id_new ->
  from_individuals s !! id_new = Some individual_new ->
  select_weakest_sample (members update_to s) update_popsize !! 0%nat
  = Some id_old ->
  to_individuals s !! id_old = Some individual_old ->
  run_share_knowledge update_popsize update_strategy "only best" false s
  = (Raise UnboundLocalError, s).
Proof.
  intros Hban Hpts Hc Hf Hw Ht.
  unfold share_knowledge, exchange, read, lift. M_simpl. rewrite Hban.
  destruct (select_subsample _ _ _ ban_distance) as [pts chosen].
  cbn [fst snd] in Hpts, Hc.
  destruct pts as [|p pts]; [congruence|].
  cbn [length seq for_each]. M_simpl.
  unfold exchange_point, individual_at, index, read. M_simpl.
  rewrite Hc. M_simpl. cbn [individuals]. rewrite Hf, Hw. M_simpl.
  rewrite Ht. M_simpl. reflexivity.
Qed.

End ShareKnowledge.

(** *** The theorems at the example populations *)

Abbreviation example_share_knowledge :=
  (share_knowledge example_select_subsample example_select_weakest_sample
                   example_nanpercentile).



Lemma only_best_inserts_below_initial_best_witness :
  exists s',
    example_share_knowledge 2 example_strategy "only best" true example_store
    = (Ok PyNone, s')
    /\ to_individuals s' !! 1%nat = Some 6%nat
    /\ (to_individuals example_store !! 1%nat = Some 6%nat
        \/ exists fittest_old,
             np.nanmin (get_fitness update_to example_store) = Ok fittest_old
             /\ F64.ltb (fitness (deref s' 6)) fittest_old = true).
Proof.
  eexists. split; [vm_compute; reflexivity|]. split; [reflexivity|].
  apply (only_best_inserts_below_initial_best
           example_select_subsample example_select_weakest_sample
           example_nanpercentile 2 example_strategy true example_store
           (Ok PyNone) _ ltac:(vm_compute; reflexivity) 1%nat 6%nat).
  reflexivity.
Defined.

(** C5, as stated, fails.  In the call below (gate enabled, policy
    "only best") the first pass puts a copy of the source individual
    with fitness 1 into slot 2 of the destination, whose best fitness is
    then 1.  The second pass still compares against the value 10 taken
    before the loop and puts the individual with fitness 5 into slot 1,
    although 5 is not strictly below the best fitness 1 the destination
    has at that moment. *)
Lemma only_best_inserts_above_current_best :
  let pass := exchange_point [0; 1]%nat [2; 1]%nat "only best"
                             (Some (F64.of_Z 10)) (F64.of_Z 11) in
  exists s1 s2,
    example_share_knowledge 2 example_strategy "only best" true example_store
    = (Ok PyNone, with_log s2 (Exchanged 2 2))
    /\ np.nanmin (get_fitness update_to example_store) = Ok (F64.of_Z 10)
    /\ pass 0 0%nat example_store = (Ok 1, s1)
    /\ np.nanmin (get_fitness update_to s1) = Ok (F64.of_Z 1)
    /\ pass 1 1%nat s1 = (Ok 2, s2)
    /\ to_individuals s1 !! 1%nat = Some 3%nat
    /\ to_individuals s2 !! 1%nat = Some 6%nat
    /\ fitness (deref s2 6) = F64.of_Z 5
    /\ F64.ltb (F64.of_Z 5) (F64.of_Z 1) = false.
Proof.
  cbv zeta. do 2 eexists.
  split; [|split; [|split; [|split; [|split]]]].
  3: vm_compute; reflexivity.
  4: vm_compute; reflexivity.
  1: vm_compute; reflexivity.
  1, 2: vm_compute; reflexivity.
  repeat split; vm_compute; reflexivity.
Qed.

Lemma gate_blocks_exchange_witness :
  exists s',
    example_share_knowledge 3 example_strategy "in between" true
                            example_store_swapped = (Ok PyNone, s')
    /\ objs s' = objs example_store_swapped
    /\ to_individuals s' = to_individuals example_store_swapped
    /\ from_individuals s' = from_individuals example_store_swapped
    /\ debug_log s' = debug_log example_store_swapped ++ [NoneExchanged 3].
Proof.
  apply (gate_blocks_exchange example_select_subsample
           example_select_weakest_sample example_nanpercentile 3
           example_strategy "in between" example_store_swapped
           (F64.of_Z 1) (F64.of_Z 10)); vm_compute; reflexivity.
Defined.

Lemma duplicate_guard_witness :
  exists r,
    exchange_point [0; 1]%nat [2; 1]%nat "always if better" None (F64.of_Z 11)
                   0 0%nat example_store_duplicate = (r, example_store_duplicate)
    /\ (r = Ok 0 \/ exists e, r = Raise e).
Proof.
  exists (Ok 0). split; [vm_compute; reflexivity|].
  apply (duplicate_guard [0; 1]%nat [2; 1]%nat "always if better" None
           (F64.of_Z 11) 0 0%nat example_store_duplicate 0%nat 0%nat
           (example_individual [1; 1] 10) (Ok 0) example_store_duplicate).
  - reflexivity.
  - reflexivity.
  - vm_compute. apply list_elem_of_here.
  - vm_compute; reflexivity.
  - vm_compute; reflexivity.
Defined.

(** C7, as stated, fails.  The destination holds a member at distance
    1e-4 exactly from the candidate (the computed norm equals 1e-4, so
    it is within 1e-4 but not strictly below).  The guard does not
    fire: the pass counts one replacement and overwrites the slot with
    a copy of the candidate, and so does the whole call. *)
Lemma duplicate_guard_misses_exact_distance :
  let s := example_store_at_threshold in
  let distance := np.linalg_norm (np.subtract (x (deref s 0)) (x (deref s 1))) in
  deref s 1 ∈ members update_to s
  /\ F64.eqb distance (F64.lit 1 10000) = true
  /\ F64.leb distance (F64.lit 1 10000) = true
  /\ F64.ltb distance (F64.lit 1 10000) = false
  /\ exchange_point [0]%nat [0]%nat "in between" None (F64.of_Z 11) 0 0%nat s
     = (Ok 1, install s 0 0)
  /\ to_individuals s = [1]%nat
  /\ to_individuals (install s 0 0) = [2]%nat
  /\ example_share_knowledge 1 example_strategy "in between" true s
     = (Ok PyNone, with_log (install s 0 0) (Exchanged 1 1)).
Proof.
  cbv zeta. split; [vm_compute; apply list_elem_of_here|].
  repeat split; vm_compute; reflexivity.
Qed.

Lemma share_knowledge_source_untouched_witness :
  exists r s',
    example_share_knowledge 2 example_strategy "in between" true example_store
    = (r, s')
    /\ from_individuals s' = from_individuals example_store
    /\ members update_from s' = members update_from example_store.
Proof.
  do 2 eexists. split; [vm_compute; reflexivity|].
  destruct (share_knowledge_source_untouched
              example_select_subsample example_select_weakest_sample
              example_nanpercentile 2 example_strategy "in between" true
              example_store _ _
              ltac:(repeat constructor)
              ltac:(vm_compute; reflexivity)) as (Hfrom & Hmembers & _).
  split; [exact Hfrom | exact Hmembers].
Defined.

Lemma only_best_without_gate_is_unbound_witness :
  example_share_knowledge 2 example_strategy "only best" false example_store
  = (Raise UnboundLocalError, example_store).
Proof.
  apply (only_best_without_gate_is_unbound example_select_subsample
           example_select_weakest_sample example_nanpercentile 2
           example_strategy example_store (F64.lit 125 1000) 0%nat 0%nat
           2%nat 4%nat); try (vm_compute; reflexivity).
  vm_compute. discriminate.
Defined.

(** ** Final search *)

Ltac cmp_cases :=
  repeat match goal with
    | H : context [Z.compare ?a ?b] |- _ => destruct (Z.compare_spec a b)
    | H : context [Pos.compare_cont Eq ?a ?b] |- _ =>
        change (Pos.compare_cont Eq a b) with (Pos.compare a b) in *;
        destruct (Pos.compare_spec a b)
    | |- context [Z.compare ?a ?b] => destruct (Z.compare_spec a b)
    | |- context [Pos.compare_cont Eq ?a ?b] =>
        change (Pos.compare_cont Eq a b) with (Pos.compare a b) in *;
        destruct (Pos.compare_spec a b)
    end.

Lemma sort_le_total a b : np.sort_le a b = true \/ np.sort_le b a = true.
Proof.
  unfold np.sort_le, F64.leb, SFleb, SFcompare.
  destruct a as [[]|[]| |[] ma ea], b as [[]|[]| |[] mb eb]; cbn; auto;
    cmp_cases; cbn; auto; lia.
Qed.

Lemma sort_le_trans a b c :
  np.sort_le a b = true -> np.sort_le b c = true -> np.sort_le a c = true.
Proof.
  unfold np.sort_le, F64.leb, SFleb, SFcompare.
  destruct a as [[]|[]| |[] ma ea], b as [[]|[]| |[] mb eb],
           c as [[]|[]| |[] mc ec]; cbn; auto; try discriminate;
    intros H1 H2; cmp_cases; cbn in *; auto; try discriminate; try lia.
Qed.

#[local] Instance by_entry_total : Total np.by_entry.
Proof. intros p q. apply sort_le_total. Qed.

#[local] Instance by_entry_trans : Transitive np.by_entry.
Proof. intros p q r. apply sort_le_trans. Qed.

(** [np.argsort] lists every position once, in an order in which the
    entries ascend. *)
Lemma argsort_spec (l : list float) :
  exists sorted : list (nat * float),
    np.argsort l = sorted.*1
    /\ sorted ≡ₚ zip (seq 0 (length l)) l
    /\ StronglySorted np.by_entry sorted.
Proof.
  exists (merge_sort np.by_entry (zip (seq 0 (length l)) l)).
  split; [reflexivity|]. split.
  - apply merge_sort_Permutation.
  - apply StronglySorted_merge_sort; apply _.
Qed.

Lemma lookup_zip_seq {A} (l : list A) i v :
  (i, v) ∈ zip (seq 0 (length l)) l -> l !! i = Some v.
Proof.
  intros Hin. apply list_elem_of_lookup_1 in Hin as [j Hj].
  apply lookup_zip_with_Some in Hj as (i' & v' & [= <- <-] & Hi & Hv).
  apply lookup_seq in Hi as [-> _]. exact Hv.
Qed.

Lemma omap_lookup_zip_seq {A B} (g : A -> B) (l : list A) :
  omap (fun p : nat * B => l !! p.1) (zip (seq 0 (length l)) (g <$> l)) = l.
Proof.
  induction l as [|a l IH] using rev_ind; [reflexivity|].
  rewrite length_app. cbn [length]. rewrite Nat.add_1_r, seq_S, fmap_app.
  rewrite zip_with_app by now rewrite length_seq, length_fmap.
  rewrite omap_app. cbn. rewrite lookup_app_r, Nat.sub_diag by lia. cbn.
  f_equal. rewrite <- IH at 3. apply list_omap_ext.
  apply Forall2_same_length_lookup_2; [reflexivity|].
  intros i p q Hp Hq. rewrite Hp in Hq. injection Hq as <-.
  apply lookup_zip_with_Some in Hp as (j & v & -> & Hj & Hv). cbn.
  apply lookup_seq in Hj as [-> _]. cbn.
  apply lookup_app_l. rewrite list_lookup_fmap in Hv.
  destruct (l !! i) eqn:Hl; [|discriminate]. eapply lookup_lt_Some; eauto.
Qed.

Section FinalSearchFacts.

Variable rescale_to_bounds : list float -> list float.
Variable minimize : list float -> nat -> OptimizeResult.

Lemma append_ranked_spec (final_results self_final_results : list OptimizeResult) :
  exists ranked,
    append_ranked final_results self_final_results
    = Ok (self_final_results ++ ranked)
    /\ ranked ≡ₚ final_results
    /\ StronglySorted best_first ranked.
Proof.
  unfold append_ranked.
  destruct (argsort_spec (fval <$> final_results)) as (sorted & -> & Hperm & Hsorted).
  set (pick := fun p : nat * float => final_results !! p.1).
  assert (Forall (fun p : nat * float =>
            exists r, final_results !! p.1 = Some r /\ fval r = p.2) sorted) as Hall.
  { apply Forall_forall. intros [i v] Hin. rewrite Hperm in Hin.
    apply lookup_zip_seq in Hin. rewrite list_lookup_fmap in Hin.
    destruct (final_results !! i) as [r|] eqn:Hr; [|discriminate].
    exists r. split; [exact Hr|]. cbn in *. congruence. }
  exists (omap (M:=list) pick sorted). split; [|split].
  - assert (mapM (fun ord => match final_results !! ord with
                             | Some r => Ok r
                             | None => Raise IndexError
                             end) sorted.*1 = Ok (omap pick sorted)) as ->;
      [|reflexivity].
    clear Hperm Hsorted. induction Hall as [|[i v] sorted (r & Hr & _) _ IH];
      [reflexivity|].
    cbn in Hr. rewrite fmap_cons. cbn [fst mapM]. rewrite Hr. res_simpl.
    rewrite IH. res_simpl. cbn [omap list_omap]. unfold pick. cbn [fst].
    rewrite Hr. reflexivity.
  - transitivity (omap (M:=list) pick
                   (zip (seq 0 (length (fval <$> final_results)))
                        (fval <$> final_results))).
    + now rewrite Hperm.
    + unfold pick. now rewrite length_fmap, omap_lookup_zip_seq.
  - clear Hperm. induction Hsorted as [|p sorted Hs IH Hhd]; [constructor|].
    apply Forall_cons in Hall as [(r & Hr & Hv) Hall]. cbn. unfold pick at 1.
    rewrite Hr. constructor; [apply IH; exact Hall|].
    apply Forall_forall. intros r' Hr'. apply list_elem_of_omap in Hr' as (q & Hq & Hpick).
    rewrite Forall_forall in Hhd, Hall.
    destruct (Hall _ Hq) as (r'' & Hr'' & Hv''). unfold pick in Hpick.
    rewrite Hr'' in Hpick. injection Hpick as <-.
    unfold best_first. rewrite Hv, Hv''. apply (Hhd _ Hq).
Qed.

(** C9.  The final stage hands every result of the local searches back,
    each once and as the solver returned it (the parameter vector stays
    with its objective value), in ascending order of the objective value,
    NaN values last.  For the objective values 3, 1, 2 the order is
    1, 2, 3, whatever the parameter vectors are. *)
Theorem perform_final_search_ranked final_search_points :
  (exists ranked,
      perform_final_search rescale_to_bounds minimize final_search_points
      = Ok ranked
      /\ ranked ≡ₚ run_local_searches rescale_to_bounds minimize
                                      final_search_points
      /\ StronglySorted best_first ranked)
  /\ (forall x3 x1 x2,
        append_ranked [ {| result_x := x3; fval := F64.of_Z 3 |};
                        {| result_x := x1; fval := F64.of_Z 1 |};
                        {| result_x := x2; fval := F64.of_Z 2 |} ] []
        = Ok [ {| result_x := x1; fval := F64.of_Z 1 |};
               {| result_x := x2; fval := F64.of_Z 2 |};
               {| result_x := x3; fval := F64.of_Z 3 |} ]).
Proof.
  split.
  - unfold perform_final_search.
    destruct (append_ranked_spec
                (run_local_searches rescale_to_bounds minimize
                                    final_search_points) [])
      as (ranked & Hrun & Hperm & Hsorted).
    exists ranked. auto.
  - intros x3 x1 x2. vm_compute. reflexivity.
Qed.

End FinalSearchFacts.

(** * Further properties *)

(** ** Integers as binary64 numbers *)

(** The number of binary digits of [p] places it between two powers
    of two. *)
Lemma digits2_bounds p :
  2 ^ (Zpos (digits2_pos p) - 1) <= Zpos p < 2 ^ Zpos (digits2_pos p).
Proof.
  induction p as [p IH|p IH|]; cbn [digits2_pos].
  - rewrite Pos2Z.inj_succ.
    replace (Z.succ (Zpos (digits2_pos p)) - 1) with (Z.succ (Zpos (digits2_pos p) - 1)) by lia.
    rewrite !Z.pow_succ_r by lia. lia.
  - rewrite Pos2Z.inj_succ.
    replace (Z.succ (Zpos (digits2_pos p)) - 1) with (Z.succ (Zpos (digits2_pos p) - 1)) by lia.
    rewrite !Z.pow_succ_r by lia. lia.
  - cbn. lia.
Qed.

Lemma digits2_unique p d :
  2 ^ (d - 1) <= Zpos p < 2 ^ d -> Zpos (digits2_pos p) = d.
Proof.
  intros [Hlo Hhi]. pose proof (digits2_bounds p) as [Hlo' Hhi'].
  destruct (Z.lt_trichotomy (Zpos (digits2_pos p)) d) as [Hlt|[Heq|Hgt]]; [exfalso|exact Heq|exfalso].
  - assert (2 ^ Zpos (digits2_pos p) <= 2 ^ (d - 1)) by (apply Z.pow_le_mono_r; lia). lia.
  - assert (0 <= d \/ d < 0) as [Hd|Hd] by lia.
    + assert (2 ^ d <= 2 ^ (Zpos (digits2_pos p) - 1)) by (apply Z.pow_le_mono_r; lia). lia.
    + rewrite (Z.pow_neg_r 2 d) in Hhi by lia. lia.
Qed.

Lemma iter_xO p n : Zpos (Pos.iter xO p n) = Zpos p * 2 ^ Zpos n.
Proof.
  induction n as [|n IH] using Pos.peano_ind.
  - cbn. lia.
  - rewrite Pos.iter_succ, Pos2Z.inj_succ, Z.pow_succ_r by lia. lia.
Qed.

Lemma shr_1_m r : 0 <= shr_m r -> shr_m (shr_1 r) = shr_m r / 2.
Proof.
  destruct r as [m rb sb]. cbn [shr_m shr_1]. intros Hm.
  destruct m as [|[p|p|]|p]; cbn [shr_m];
    first [ reflexivity | lia
          | apply Z.div_unique with 1; lia
          | apply Z.div_unique with 0; lia ].
Qed.

Lemma iter_pos_shr_1 k : forall r,
  0 <= shr_m r ->
  shr_m (iter_pos shr_1 k r) = shr_m r / 2 ^ Zpos k.
Proof.
  assert (Hnn : forall r, 0 <= shr_m r -> 0 <= shr_m (shr_1 r)).
  { intros r Hr. rewrite shr_1_m by exact Hr. apply Z.div_pos; lia. }
  induction k as [k IH|k IH|]; intros r Hr; cbn [iter_pos].
  - assert (0 <= shr_m (iter_pos shr_1 k (shr_1 r))) as H1.
    { rewrite IH by auto. apply Z.div_pos; [auto|]. apply Z.pow_pos_nonneg; lia. }
    rewrite IH by exact H1. rewrite IH by auto. rewrite shr_1_m by exact Hr.
    rewrite !Z.div_div by (try apply Z.pow_pos_nonneg; lia).
    f_equal. rewrite <- Z.pow_add_r, <- Z.pow_succ_r by lia. f_equal. lia.
  - assert (0 <= shr_m (iter_pos shr_1 k r)) as H1.
    { rewrite IH by auto. apply Z.div_pos; [auto|]. apply Z.pow_pos_nonneg; lia. }
    rewrite IH by exact H1. rewrite IH by auto.
    rewrite !Z.div_div by (try apply Z.pow_pos_nonneg; lia).
    f_equal. rewrite <- Z.pow_add_r by lia. f_equal. lia.
  - rewrite shr_1_m by exact Hr. reflexivity.
Qed.

Lemma digits2_iter_xO p n :
  Zpos (digits2_pos (Pos.iter xO p n)) = Zpos (digits2_pos p) + Zpos n.
Proof.
  induction n as [|n IH] using Pos.peano_ind.
  - cbn [Pos.iter digits2_pos]. lia.
  - rewrite Pos.iter_succ. cbn [digits2_pos]. lia.
Qed.

Lemma binary_round_aux_exact s m e :
  Zpos (digits2_pos m) = 53 -> -1074 <= e <= 971 ->
  binary_round_aux F64.prec F64.emax s (Zpos m) e loc_Exact = S754_finite s m e.
Proof.
  intros Hd He. unfold binary_round_aux, shr_fexp, fexp, emin, F64.prec, F64.emax.
  cbn [Zdigits2 shr_record_of_loc]. rewrite Hd.
  replace ((53 + e - 53) `max` (3 - 1024 - 53) - e) with 0 by lia.
  cbn [shr shr_m loc_of_shr_record round_nearest_even Zdigits2]. rewrite Hd.
  replace ((53 + e - 53) `max` (3 - 1024 - 53) - e) with 0 by lia.
  cbn [shr shr_m].
  destruct (Z.leb_spec e (1024 - 53)); [reflexivity|lia].
Qed.

(** An integer below 2^53 is a binary64 number: its mantissa padded to 53
    bits. *)
Lemma binary_round_small s p :
  Zpos p < 2 ^ 53 ->
  exists m e,
    binary_round F64.prec F64.emax s p 0 = S754_finite s m e
    /\ e = Zpos (digits2_pos p) - 53
    /\ Zpos m = Zpos p * 2 ^ (- e).
Proof.
  intros Hp. pose proof (digits2_bounds p) as [Hlo Hhi].
  assert (Zpos (digits2_pos p) <= 53) as Hd.
  { destruct (Z.le_gt_cases (Zpos (digits2_pos p)) 53) as [?|Hgt]; [assumption|].
    assert (2 ^ 53 <= 2 ^ (Zpos (digits2_pos p) - 1)) by (apply Z.pow_le_mono_r; lia).
    lia. }
  unfold binary_round, shl_align, fexp, emin, F64.prec, F64.emax.
  replace ((Zpos (digits2_pos p) + 0 - 53) `max` (3 - 1024 - 53) - 0)
    with (Zpos (digits2_pos p) - 53) by lia.
  replace ((Zpos (digits2_pos p) + 0 - 53) `max` (3 - 1024 - 53))
    with (Zpos (digits2_pos p) - 53) by lia.
  destruct (Zpos (digits2_pos p) - 53) as [|k|k] eqn:Hk; [| lia |].
  - exists p, 0. rewrite binary_round_aux_exact by lia.
    repeat split. cbn. lia.
  - exists (Pos.iter xO p k), (Zneg k).
    rewrite binary_round_aux_exact;
      [|rewrite digits2_iter_xO; lia | lia].
    repeat split. rewrite iter_xO. reflexivity.
Qed.


Lemma round_nearest_even_bounds m l :
  m <= round_nearest_even m l <= m + 1.
Proof.
  unfold round_nearest_even. destruct l as [|[]]; try lia.
  destruct (Z.even m); lia.
Qed.

(** An integer from 2^53 on rounds to a number with a positive exponent
    and a full mantissa, or overflows. *)
Lemma binary_round_big s p :
  2 ^ 53 <= Zpos p ->
  binary_round F64.prec F64.emax s p 0 = S754_infinity s
  \/ exists m e,
      binary_round F64.prec F64.emax s p 0 = S754_finite s m e
      /\ 1 <= e /\ 2 ^ 52 <= Zpos m.
Proof.
  intros Hp. pose proof (digits2_bounds p) as [Hlo Hhi].
  assert (54 <= Zpos (digits2_pos p)) as Hd.
  { destruct (Z.le_gt_cases 54 (Zpos (digits2_pos p))) as [?|Hlt]; [assumption|].
    assert (2 ^ Zpos (digits2_pos p) <= 2 ^ 53) by (apply Z.pow_le_mono_r; lia).
    lia. }
  unfold binary_round, shl_align, fexp, emin, F64.prec, F64.emax.
  replace ((Zpos (digits2_pos p) + 0 - 53) `max` (3 - 1024 - 53) - 0)
    with (Zpos (digits2_pos p) - 53) by lia.
  replace ((Zpos (digits2_pos p) + 0 - 53) `max` (3 - 1024 - 53))
    with (Zpos (digits2_pos p) - 53) by lia.
  destruct (Zpos (digits2_pos p) - 53) as [|k|k] eqn:Hk; [lia| |lia].
  unfold binary_round_aux, shr_fexp, fexp, emin. cbn [Zdigits2 shr_record_of_loc].
  replace ((Zpos (digits2_pos p) + 0 - 53) `max` (3 - 1024 - 53) - 0)
    with (Zpos k) by lia.
  cbn [shr].
  set (mrs := iter_pos shr_1 k _).
  assert (shr_m mrs = Zpos p / 2 ^ Zpos k) as Hm1
    by (unfold mrs; rewrite iter_pos_shr_1; cbn [shr_m]; [reflexivity|lia]).
  assert (0 < 2 ^ Zpos k) as Hpow by (apply Z.pow_pos_nonneg; lia).
  assert (2 ^ 52 <= shr_m mrs < 2 ^ 53) as [Hm1lo Hm1hi].
  { rewrite Hm1. split.
    - apply Z.div_le_lower_bound; [lia|].
      rewrite <- Z.pow_add_r by lia.
      replace (Zpos k + 52) with (Zpos (digits2_pos p) - 1) by lia. exact Hlo.
    - apply Z.div_lt_upper_bound; [lia|].
      rewrite <- Z.pow_add_r by lia.
      replace (Zpos k + 53) with (Zpos (digits2_pos p)) by lia. exact Hhi. }
  pose proof (round_nearest_even_bounds (shr_m mrs) (loc_of_shr_record mrs)) as Hr.
  set (m2 := round_nearest_even _ _) in *.
  destruct m2 as [|q|q] eqn:Hm2; [lia| |lia].
  cbn [Zdigits2].
  destruct (Z.eq_dec (Zpos q) (2 ^ 53)) as [Hq|Hq].
  - rewrite (digits2_unique q 54) by (rewrite Hq; cbn; lia).
    replace ((54 + (0 + Z.pos k) - 53) `max` (3 - 1024 - 53) - (0 + Z.pos k))
      with 1 by lia.
    cbn [shr iter_pos]. rewrite Hq. cbn [shr_1 shr_m Z.pow Z.pow_pos Pos.iter Z.mul Pos.mul].
    destruct (_ <=? _); [right|now left].
    eexists _, _. split; [reflexivity|]. split; [lia|]. cbn. lia.
  - rewrite (digits2_unique q 53) by (cbn; lia).
    replace ((53 + (0 + Z.pos k) - 53) `max` (3 - 1024 - 53) - (0 + Z.pos k))
      with 0 by lia.
    cbn [shr shr_m].
    destruct (_ <=? _); [right|now left].
    exists q, (0 + Zpos k). split; [reflexivity|]. split; lia.
Qed.

Lemma of_Z_pos p : F64.of_Z (Zpos p) = binary_round F64.prec F64.emax false p 0.
Proof. reflexivity. Qed.

Lemma of_Z_neg p : F64.of_Z (Zneg p) = binary_round F64.prec F64.emax true p 0.
Proof. reflexivity. Qed.

Lemma shiftl_padded p e :
  e <= 0 -> Z.shiftl (Zpos p * 2 ^ (- e)) e = Zpos p.
Proof.
  intros He. destruct (Z.eq_dec e 0) as [->|Hne].
  - rewrite Z.shiftl_0_r. change (- 0) with 0. rewrite Z.pow_0_r. lia.
  - rewrite Z.shiftl_div_pow2 by lia. apply Z.div_mul.
    apply Z.pow_nonzero; lia.
Qed.

(** [int(float(z))] gives [z] back for an integer below 2^53 in size. *)
Lemma int_of_Z z : Z.abs z < 2 ^ 53 -> py.int (F64.of_Z z) = Ok z.
Proof.
  intros Hz. destruct z as [|p|p].
  - reflexivity.
  - rewrite of_Z_pos.
    destruct (binary_round_small false p) as (m & e & -> & He & Hm); [lia|].
    pose proof (digits2_bounds p).
    unfold py.int, F64.trunc. cbn [cond_Zopp]. rewrite Hm, shiftl_padded; [reflexivity|].
    assert (Zpos (digits2_pos p) <= 53); [|lia].
    destruct (Z.le_gt_cases (Zpos (digits2_pos p)) 53) as [?|Hgt]; [assumption|].
    assert (2 ^ 53 <= 2 ^ (Zpos (digits2_pos p) - 1)) by (apply Z.pow_le_mono_r; lia).
    lia.
  - rewrite of_Z_neg.
    destruct (binary_round_small true p) as (m & e & -> & He & Hm); [lia|].
    pose proof (digits2_bounds p).
    unfold py.int, F64.trunc. cbn [cond_Zopp]. rewrite Hm, shiftl_padded; [reflexivity|].
    assert (Zpos (digits2_pos p) <= 53); [|lia].
    destruct (Z.le_gt_cases (Zpos (digits2_pos p)) 53) as [?|Hgt]; [assumption|].
    assert (2 ^ 53 <= 2 ^ (Zpos (digits2_pos p) - 1)) by (apply Z.pow_le_mono_r; lia).
    lia.
Qed.

Lemma digits2_small p : Zpos p < 2 ^ 53 -> Zpos (digits2_pos p) <= 53.
Proof.
  intros Hp. pose proof (digits2_bounds p).
  destruct (Z.le_gt_cases (Zpos (digits2_pos p)) 53) as [?|Hgt]; [assumption|].
  assert (2 ^ 53 <= 2 ^ (Zpos (digits2_pos p) - 1)) by (apply Z.pow_le_mono_r; lia).
  lia.
Qed.

Lemma digits2_mono p q :
  Zpos p <= Zpos q -> Zpos (digits2_pos p) <= Zpos (digits2_pos q).
Proof.
  intros Hpq. pose proof (digits2_bounds p). pose proof (digits2_bounds q).
  destruct (Z.le_gt_cases (Zpos (digits2_pos p)) (Zpos (digits2_pos q)))
    as [?|Hgt]; [assumption|].
  assert (2 ^ Zpos (digits2_pos q) <= 2 ^ (Zpos (digits2_pos p) - 1))
    by (apply Z.pow_le_mono_r; lia).
  lia.
Qed.

Lemma rint_padded s m e p :
  e <= 0 -> Zpos m = Zpos p * 2 ^ (- e) ->
  F64.rint (S754_finite s m e) = F64.of_Z (cond_Zopp s (Zpos p)).
Proof.
  intros He Hm. unfold F64.rint. rewrite Hm, shiftl_padded by exact He.
  rewrite Z.shiftl_mul_pow2 by lia. rewrite Z.sub_diag.
  assert (0 < 2 ^ (- e)) by (apply Z.pow_pos_nonneg; lia).
  assert ((if 0 <=? e then Zpos p
           else match 2 * 0 ?= Z.shiftl 1 (- e) with
                | Eq => if Z.even (Zpos p) then Zpos p else Zpos p + 1
                | Lt => Zpos p
                | Gt => Zpos p + 1
                end) = Zpos p) as ->.
  { destruct (0 <=? e); [reflexivity|].
    rewrite Z.shiftl_mul_pow2 by lia.
    destruct (Z.compare_spec (2 * 0) (1 * 2 ^ (- e))); [lia|reflexivity|lia]. }
  unfold F64.of_Z_signed. destruct s; reflexivity.
Qed.

(** [np.round] leaves the float of an integer below 2^53 in size as it
    is. *)
Lemma rint_of_Z z : Z.abs z < 2 ^ 53 -> F64.rint (F64.of_Z z) = F64.of_Z z.
Proof.
  intros Hz. destruct z as [|p|p].
  - reflexivity.
  - rewrite of_Z_pos.
    destruct (binary_round_small false p) as (m & e & -> & He & Hm); [lia|].
    rewrite (rint_padded false m e p); [| |exact Hm].
    + cbn [cond_Zopp]. rewrite of_Z_pos.
      destruct (binary_round_small false p) as (m' & e' & -> & He' & Hm'); [lia|].
      f_equal; [|lia]. apply Pos2Z.inj. rewrite Hm, Hm', He, He'. reflexivity.
    + pose proof (digits2_small p). lia.
  - rewrite of_Z_neg.
    destruct (binary_round_small true p) as (m & e & -> & He & Hm); [lia|].
    rewrite (rint_padded true m e p); [| |exact Hm].
    + change (cond_Zopp true (Zpos p)) with (Zneg p). rewrite of_Z_neg.
      destruct (binary_round_small true p) as (m' & e' & -> & He' & Hm'); [lia|].
      f_equal; [|lia]. apply Pos2Z.inj. rewrite Hm, Hm', He, He'. reflexivity.
    + pose proof (digits2_small p). lia.
Qed.

(** Two positive integers below 2^53 compare as floats the way they
    compare as integers. *)
Lemma ltb_of_Z a b :
  0 < a < 2 ^ 53 -> 0 < b < 2 ^ 53 ->
  F64.ltb (F64.of_Z a) (F64.of_Z b) = (a <? b).
Proof.
  intros Ha Hb. destruct a as [|p|p]; [lia| |lia]. destruct b as [|q|q]; [lia| |lia].
  rewrite !of_Z_pos.
  destruct (binary_round_small false p) as (m & e & -> & He & Hm); [lia|].
  destruct (binary_round_small false q) as (m' & e' & -> & He' & Hm'); [lia|].
  pose proof (digits2_small p). pose proof (digits2_small q).
  unfold F64.ltb, SFltb, SFcompare.
  change (Pos.compare_cont Eq m m') with (Pos.compare m m').
  destruct (Z.ltb_spec (Zpos p) (Zpos q)) as [Hlt|Hge].
  - pose proof (digits2_mono p q). 
    destruct (Z.compare_spec e e') as [Heq|?|?]; [|reflexivity|lia].
    assert (Zpos m < Zpos m') as Hmm.
    { rewrite Hm, Hm', Heq. apply Z.mul_lt_mono_pos_r; [apply Z.pow_pos_nonneg|]; lia. }
    destruct (Pos.compare_spec m m'); [lia|reflexivity|lia].
  - pose proof (digits2_mono q p).
    destruct (Z.compare_spec e e') as [Heq|?|?]; [|lia|reflexivity].
    assert (Zpos m' <= Zpos m) as Hmm.
    { rewrite Hm, Hm', Heq. apply Z.mul_le_mono_nonneg_r; [apply Z.pow_nonneg|]; lia. }
    destruct (Pos.compare_spec m m'); [reflexivity|lia|reflexivity].
Qed.

(** A float that is not below the float of a positive integer [c] has an
    integer part of at least [c], when it is the float of an integer. *)
Lemma int_of_Z_ge c z n :
  0 < c < 2 ^ 53 ->
  F64.ltb (F64.of_Z z) (F64.of_Z c) = false ->
  py.int (F64.of_Z z) = Ok n ->
  c <= n.
Proof.
  intros Hc. destruct c as [|c|c]; [lia| |lia].
  destruct (binary_round_small false c) as (mc & ec & Hfc & Hec & Hmc); [lia|].
  pose proof (digits2_small c ltac:(lia)) as Hdc.
  destruct z as [|p|p].
  - rewrite of_Z_pos, Hfc. discriminate.
  - destruct (Z.lt_ge_cases (Zpos p) (2 ^ 53)) as [Hsmall|Hbig].
    + rewrite ltb_of_Z, int_of_Z by lia. intros Hlt [= <-]. lia.
    + rewrite !of_Z_pos, Hfc.
      destruct (binary_round_big false p Hbig) as [->|(m & e & -> & He & Hm)];
        [discriminate|].
      intros _. unfold py.int, F64.trunc. cbn [cond_Zopp]. intros [= <-].
      rewrite Z.shiftl_mul_pow2 by lia.
      assert (2 ^ 1 <= 2 ^ e) by (apply Z.pow_le_mono_r; lia).
      change (2 ^ 1) with 2 in *. change (2 ^ 52) with 4503599627370496 in *.
      change (2 ^ 53) with 9007199254740992 in *. nia.
  - rewrite of_Z_neg, of_Z_pos, Hfc.
    destruct (Z.lt_ge_cases (Zpos p) (2 ^ 53)) as [Hsmall|Hbig].
    + destruct (binary_round_small true p Hsmall) as (m & e & -> & _). discriminate.
    + destruct (binary_round_big true p Hbig) as [->|(m & e & -> & _)]; discriminate.
Qed.

Lemma floor_ge c x n :
  0 < c < 2 ^ 53 ->
  F64.ltb (F64.floor x) (F64.of_Z c) = false ->
  py.int (F64.floor x) = Ok n ->
  c <= n.
Proof.
  intros Hc. destruct x as [s|s| |s m e]; cbn [F64.floor].
  - destruct c as [|c|c]; [lia| |lia]. rewrite of_Z_pos.
    destruct (binary_round_small false c) as (mc & ec & -> & _); [lia|].
    discriminate.
  - intros _. discriminate.
  - intros _. discriminate.
  - unfold F64.of_Z_signed. destruct (_ =? 0).
    + destruct c as [|c|c]; [lia| |lia]. rewrite of_Z_pos.
      destruct (binary_round_small false c) as (mc & ec & -> & _); [lia|].
      discriminate.
    + apply int_of_Z_ge. exact Hc.
Qed.

(** [int(min([a, c]))] for the float [a] of an integer [z] and a positive
    integer [c]: at most [c], and not negative when [z] is not. *)
Lemma int_min_of_Z c z n :
  0 < c < 2 ^ 53 ->
  (if F64.ltb (F64.of_Z c) (F64.of_Z z) then Ok c else py.int (F64.of_Z z)) = Ok n ->
  n <= c /\ (0 <= z -> 0 <= n).
Proof.
  intros Hc. destruct c as [|c|c]; [lia| |lia].
  destruct (binary_round_small false c) as (mc & ec & Hfc & Hec & Hmc); [lia|].
  pose proof (digits2_small c ltac:(lia)) as Hdc.
  destruct z as [|p|p].
  - rewrite of_Z_pos, Hfc. cbn. intros [= <-]. lia.
  - destruct (Z.lt_ge_cases (Zpos p) (2 ^ 53)) as [Hsmall|Hbig].
    + rewrite ltb_of_Z, int_of_Z by lia.
      destruct (Z.ltb_spec (Zpos c) (Zpos p)); intros [= <-]; lia.
    + rewrite !of_Z_pos, Hfc.
      destruct (binary_round_big false p Hbig) as [->|(m & e & -> & He & Hm)].
      * cbn. intros [= <-]. lia.
      * unfold F64.ltb, SFltb, SFcompare.
        destruct (Z.compare_spec ec e); [lia| |lia]. intros [= <-]. lia.
  - rewrite of_Z_neg, of_Z_pos, Hfc.
    destruct (Z.lt_ge_cases (Zpos p) (2 ^ 53)) as [Hsmall|Hbig].
    + rewrite <- of_Z_neg, <- Hfc, <- of_Z_pos.
      assert (F64.ltb (F64.of_Z (Zpos c)) (F64.of_Z (Zneg p)) = false) as ->.
      { rewrite of_Z_neg, of_Z_pos, Hfc.
        destruct (binary_round_small true p Hsmall) as (m & e & -> & _). reflexivity. }
      rewrite int_of_Z by lia. intros [= <-]. lia.
    + destruct (binary_round_big true p Hbig) as [->|(m & e & -> & He & Hm)].
      * discriminate.
      * cbn [F64.ltb SFltb SFcompare]. unfold py.int, F64.trunc. cbn [cond_Zopp].
        intros [= <-]. rewrite Z.shiftl_mul_pow2 by lia.
        assert (0 < 2 ^ e) by (apply Z.pow_pos_nonneg; lia). nia.
Qed.

(** ** More on the budget allocation *)

Ltac res_step H :=
  match type of H with
  | mbind _ ?r = Ok _ =>
      let Hr := fresh "Hstep" in
      destruct r as [[? ?]|?] eqn:Hr || destruct r eqn:Hr;
      cbn [mbind mret res_bind res_ret] in H;
      [|discriminate H]
  end.

(** What an accepted allocation was computed from. *)
Lemma distribute_budget_inv self a :
  distribute_budget self = Ok a ->
  resolve_CMAES self (budget_CMAES (budgets a))
  = Ok (popsize_CMAES (popsizes a), n_iter_CMAES (n_iterations a))
  /\ resolve_DiffEvol self (budget_DiffEvol (budgets a))
     = Ok (popsize_DiffEvol (popsizes a), n_iter_DiffEvol (n_iterations a))
  /\ n_iter_global (n_iterations a)
     = Z.max (n_iter_CMAES (n_iterations a)) (n_iter_DiffEvol (n_iterations a))
  /\ gradient_eval_equivalent self <> 0
  /\ exists stop pts breakpoints,
       py.float_of_int (n_refinements a
                        - popsize_initial_refinements (popsizes a)) = Ok stop
       /\ np.linspace (F64.of_Z 0) stop 4 true = Ok pts
       /\ mapM int_round pts = Ok breakpoints
       /\ popsize_runtime_refinements (popsizes a)
          = consecutive_differences breakpoints.
Proof.
  unfold distribute_budget. intros H.
  repeat res_step H. injection H as <-.
  cbn [budgets popsizes n_iterations n_refinements budget_CMAES budget_DiffEvol
       popsize_CMAES popsize_DiffEvol n_iter_CMAES n_iter_DiffEvol n_iter_global
       popsize_initial_refinements popsize_runtime_refinements].
  repeat split; try assumption.
  - intros Hz.
    match goal with
    | Hd : py.int_truediv _ (gradient_eval_equivalent self * 50) = Ok _ |- _ =>
        rewrite Hz in Hd; unfold py.int_truediv in Hd; cbn in Hd; discriminate Hd
    end.
  - eauto 10.
Qed.

(** X1.  When the cost unit of a gradient evaluation is zero (given as
    0, or defaulted from an empty parameter vector) the allocator stops
    with [ZeroDivisionError] at the number of refinements, whatever the
    other settings; the error for too few multi-starts is not reached. *)
Theorem distribute_budget_zero_gradient_unit self :
  gradient_eval_equivalent self = 0 ->
  distribute_budget self = Raise ZeroDivisionError.
Proof.
  intros Hz. unfold distribute_budget. rewrite Hz.
  replace (n_equivalent_multi_starts self * 0 * local_search_equivalent self)
    with 0 by lia.
  vm_compute. reflexivity.
Qed.

Lemma distribute_budget_zero_gradient_unit_witness :
  distribute_budget (init 20 500 None 0) = Raise ZeroDivisionError.
Proof.
  apply (distribute_budget_zero_gradient_unit (init 20 500 None 0)).
  reflexivity.
Defined.

(** A resolved CMAES pair has at least [lb_iterations_CMAES]
    iterations. *)
Lemma resolve_CMAES_iterations self budget p n :
  resolve_CMAES self budget = Ok (p, n) -> lb_iterations_CMAES <= n.
Proof.
  unfold resolve_CMAES.
  destruct (lb_popsize_CMAES self) as [lb|]; res_simpl; [|discriminate].
  destruct (attempted_popsize budget max_iter_CMAES) as [a|]; res_simpl;
    [|discriminate].
  destruct (F64.gtb a lb).
  - destruct (py.int a); res_simpl; [|discriminate]. intros [= _ <-].
    unfold lb_iterations_CMAES, max_iter_CMAES. lia.
  - destruct (py.float_of_int budget) as [b|]; res_simpl; [|discriminate].
    destruct (F64.ltb _ _) eqn:Hlt; [discriminate|].
    destruct (py.int _) as [n'|] eqn:Hint; res_simpl; [|discriminate].
    intros [= _ <-]. eapply floor_ge; [|exact Hlt|exact Hint].
    unfold lb_iterations_CMAES. cbn. lia.
Qed.

(** A resolved DiffEvol pair has at least [lb_iterations_DiffEvol]
    iterations. *)
Lemma resolve_DiffEvol_iterations self budget p n :
  resolve_DiffEvol self budget = Ok (p, n) -> lb_iterations_DiffEvol <= n.
Proof.
  unfold resolve_DiffEvol.
  destruct (attempted_popsize budget max_iter_DE) as [a|]; res_simpl;
    [|discriminate].
  destruct (py.float_of_int (lb_popsize_DE self)) as [lb|]; res_simpl;
    [|discriminate].
  destruct (F64.gtb a lb).
  - destruct (py.int a); res_simpl; [|discriminate]. intros [= _ <-].
    unfold lb_iterations_DiffEvol, max_iter_DE. lia.
  - destruct (py.int_truediv budget _) as [q|]; res_simpl; [|discriminate].
    destruct (F64.ltb _ _) eqn:Hlt; [discriminate|].
    destruct (py.int _) as [n'|] eqn:Hint; res_simpl; [|discriminate].
    intros [= _ <-]. eapply floor_ge; [|exact Hlt|exact Hint].
    unfold lb_iterations_DiffEvol. cbn. lia.
Qed.

(** X2.  Every allocation the allocator accepts gives CMAES at least 50
    and DiffEvol at least 25 iterations; the outer iteration count is
    the larger of the two, so at least 50. *)
Theorem accepted_allocation_iterations self a :
  distribute_budget self = Ok a ->
  50 <= n_iter_CMAES (n_iterations a)
  /\ 25 <= n_iter_DiffEvol (n_iterations a)
  /\ n_iter_global (n_iterations a)
     = Z.max (n_iter_CMAES (n_iterations a)) (n_iter_DiffEvol (n_iterations a))
  /\ 50 <= n_iter_global (n_iterations a).
Proof.
  intros Ha. apply distribute_budget_inv in Ha as (HC & HD & Hg & _).
  apply resolve_CMAES_iterations in HC. apply resolve_DiffEvol_iterations in HD.
  unfold lb_iterations_CMAES, lb_iterations_DiffEvol in *. lia.
Qed.

Lemma accepted_allocation_iterations_witness :
  exists a, distribute_budget (init 20 500 None 2) = Ok a
    /\ 50 <= n_iter_CMAES (n_iterations a)
    /\ 25 <= n_iter_DiffEvol (n_iterations a)
    /\ n_iter_global (n_iterations a)
       = Z.max (n_iter_CMAES (n_iterations a)) (n_iter_DiffEvol (n_iterations a))
    /\ 50 <= n_iter_global (n_iterations a).
Proof.
  eexists. split; [vm_compute; reflexivity|].
  apply (accepted_allocation_iterations (init 20 500 None 2)).
  vm_compute. reflexivity.
Defined.

(** The first sample of a linear spacing that starts at 0 is a zero,
    unless the computation of the step degenerates to NaN. *)
Lemma linspace_sample_first stop div :
  np.linspace_sample (F64.of_Z 0) stop div 0 = S754_nan
  \/ exists s, np.linspace_sample (F64.of_Z 0) stop div 0 = S754_zero s.
Proof.
  unfold np.linspace_sample. cbv zeta.
  change (F64.of_Z 0) with (S754_zero false).
  generalize (F64.sub stop (S754_zero false)). intros delta.
  generalize (F64.of_Z div). intros d.
  destruct (0 <? div).
  - destruct (F64.eqb (F64.div delta d) (S754_zero false)).
    + destruct d as [[]|[]| |[] ? ?], delta as [[]|[]| |[] ? ?]; cbn; eauto.
    + generalize (F64.div delta d). intros step.
      destruct step as [[]|[]| |[] ? ?]; cbn; eauto.
  - destruct delta as [[]|[]| |[] ? ?]; cbn; eauto.
Qed.

Lemma int_round_first stop div z :
  int_round (np.linspace_sample (F64.of_Z 0) stop div 0) = Ok z -> z = 0.
Proof.
  destruct (linspace_sample_first stop div) as [->|[s ->]]; cbn; congruence.
Qed.

(** X3.  An accepted allocation has exactly three runtime-refinement
    quotas; when the number of refinements left after the initial ones
    is below 2^53 in size, the three quotas add up to exactly that
    number. *)
Theorem runtime_quotas self a :
  distribute_budget self = Ok a ->
  exists q1 q2 q3,
    popsize_runtime_refinements (popsizes a) = [q1; q2; q3]
    /\ (Z.abs (n_refinements a - popsize_initial_refinements (popsizes a))
        < 2 ^ 53 ->
        q1 + q2 + q3
        = n_refinements a - popsize_initial_refinements (popsizes a)).
Proof.
  intros Ha.
  apply distribute_budget_inv in Ha
    as (_ & _ & _ & _ & stop & pts & bps & Hstop & Hpts & Hbps & ->).
  unfold np.linspace in Hpts. cbn in Hpts. injection Hpts as <-.
  apply mapM_res_Forall2 in Hbps.
  apply Forall2_cons_inv_l in Hbps as (b0 & bps0 & Hb0 & Hbps & ->).
  apply Forall2_cons_inv_l in Hbps as (b1 & bps1 & _ & Hbps & ->).
  apply Forall2_cons_inv_l in Hbps as (b2 & bps2 & _ & Hbps & ->).
  apply Forall2_cons_inv_l in Hbps as (b3 & bps3 & Hb3 & Hbps & ->).
  apply Forall2_nil_inv_l in Hbps as ->.
  apply int_round_first in Hb0 as ->. cbn [consecutive_differences].
  exists (b1 - 0), (b2 - b1), (b3 - b2). split; [reflexivity|].
  intros Hsmall. unfold py.float_of_int in Hstop.
  destruct (F64.is_inf _); [discriminate|]. injection Hstop as <-.
  unfold int_round, np.round in Hb3.
  rewrite rint_of_Z, int_of_Z in Hb3 by exact Hsmall. injection Hb3 as <-. lia.
Qed.

Lemma runtime_quotas_witness :
  exists a q1 q2 q3,
    distribute_budget (init 20 500 None 2) = Ok a
    /\ popsize_runtime_refinements (popsizes a) = [q1; q2; q3]
    /\ q1 + q2 + q3 = 32.
Proof.
  destruct (runtime_quotas (init 20 500 None 2) _ ltac:(vm_compute; reflexivity))
    as (q1 & q2 & q3 & Hq & Hsum).
  eexists _, q1, q2, q3. split; [vm_compute; reflexivity|].
  split; [exact Hq|]. rewrite Hsum; [reflexivity|]. vm_compute. reflexivity.
Defined.

(** ** More on the iteration schedule *)

Lemma calls_to_inv n_global n_X calls :
  calls_to n_global n_X = Ok calls ->
  exists stop pts,
    py.float_of_int n_global = Ok stop
    /\ np.linspace (F64.of_Z 0) stop n_X false = Ok pts
    /\ Forall2 (fun v z => py.int v = Ok z) pts calls.
Proof.
  unfold calls_to.
  destruct (py.float_of_int n_global) as [stop|]; res_simpl; [|discriminate].
  destruct (np.linspace _ _ _ _) as [pts|] eqn:Hpts; res_simpl; [|discriminate].
  intros Hmap. apply mapM_res_Forall2 in Hmap. eauto.
Qed.

Lemma first_call_index n_global n_X calls :
  calls_to n_global n_X = Ok calls ->
  0 < n_X ->
  calls !! 0%nat = Some 0.
Proof.
  intros Hcalls Hn.
  apply calls_to_inv in Hcalls as (stop & pts & _ & Hpts & Hall).
  apply linspace_open_lookup in Hpts as [_ Hpts].
  specialize (Hpts 0%nat ltac:(lia)).
  destruct (Forall2_lookup_l _ _ _ _ _ Hall Hpts) as (z & Hz & Hint).
  rewrite Hz. f_equal.
  change (Z.of_nat 0) with 0 in Hint.
  destruct (linspace_sample_first stop n_X) as [Hv|[s Hv]];
    rewrite Hv in Hint; cbn in Hint; congruence.
Qed.

(** X4.  A heuristic with at least one call is called at outer iteration
    0: the first of its call indices is 0, whatever the two iteration
    counts are. *)
Theorem first_call_is_zero n_global n_X calls :
  0 < n_X ->
  calls_to n_global n_X = Ok calls ->
  calls !! 0%nat = Some 0.
Proof. intros Hn Hcalls. exact (first_call_index _ _ _ Hcalls Hn). Qed.

Lemma first_call_is_zero_witness :
  exists calls, calls_to 400 150 = Ok calls /\ calls !! 0%nat = Some 0.
Proof.
  eexists. split; [vm_compute; reflexivity|].
  apply (first_call_is_zero 400 150); [lia | vm_compute; reflexivity].
Defined.

Lemma member_elem_of i l : member i l = true <-> i ∈ l.
Proof.
  unfold member. rewrite existsb_exists. split.
  - intros (j & Hj & Heq). apply Z.eqb_eq in Heq as ->. now apply list_elem_of_In.
  - intros Hi. exists i. split; [now apply list_elem_of_In | apply Z.eqb_refl].
Qed.

(** The entry of one iteration, as [_schedule_iterations] builds it. *)
Lemma schedule_iterations_inv n schedule :
  schedule_iterations n = Ok schedule ->
  exists calls_to_CMAES calls_to_DiffEvol c5 c30 c50 c70,
    calls_to (n_iter_global n) (n_iter_CMAES n) = Ok calls_to_CMAES
    /\ calls_to (n_iter_global n) (n_iter_DiffEvol n) = Ok calls_to_DiffEvol
    /\ checkpoint (F64.lit 5 100) (n_iter_global n) = Ok c5
    /\ checkpoint (F64.lit 3 10) (n_iter_global n) = Ok c30
    /\ checkpoint (F64.lit 5 10) (n_iter_global n) = Ok c50
    /\ checkpoint (F64.lit 7 10) (n_iter_global n) = Ok c70
    /\ schedule
       = (fun i : nat =>
            (if member (Z.of_nat i) calls_to_CMAES then [CMAES] else [])
            ++ (if member (Z.of_nat i) calls_to_DiffEvol then [DiffEvol] else [])
            ++ (if member (Z.of_nat i) [c5] then [InitialRefine] else [])
            ++ (if member (Z.of_nat i) [c30; c50; c70]
                then [RuntimeRefine] else []))
           <$> seq 0 (Z.to_nat (n_iter_global n)).
Proof.
  unfold schedule_iterations.
  destruct (calls_to _ (n_iter_CMAES n)) as [cC|]; res_simpl; [|discriminate].
  destruct (calls_to _ (n_iter_DiffEvol n)) as [cD|]; res_simpl; [|discriminate].
  destruct (checkpoint (F64.lit 5 100) _) as [c5|]; res_simpl; [|discriminate].
  destruct (checkpoint (F64.lit 3 10) _) as [c30|]; res_simpl; [|discriminate].
  destruct (checkpoint (F64.lit 5 10) _) as [c50|]; res_simpl; [|discriminate].
  destruct (checkpoint (F64.lit 7 10) _) as [c70|]; res_simpl; [|discriminate].
  intros [= <-]. exists cC, cD, c5, c30, c50, c70. repeat split.
Qed.

(** X5.  The schedule has one entry per outer iteration.  The entry of
    iteration [i] lists its tags in the order they are run, each at most
    once, and carries the tag of a heuristic exactly when [i] is one of
    its call indices, the tag of the initial refinement exactly at the 5%
    checkpoint and the tag of the runtime refinement exactly at the 30%,
    50% and 70% checkpoints. *)
Theorem schedule_entries n schedule :
  schedule_iterations n = Ok schedule ->
  exists calls_to_CMAES calls_to_DiffEvol c5 c30 c50 c70,
    calls_to (n_iter_global n) (n_iter_CMAES n) = Ok calls_to_CMAES
    /\ calls_to (n_iter_global n) (n_iter_DiffEvol n) = Ok calls_to_DiffEvol
    /\ checkpoint (F64.lit 5 100) (n_iter_global n) = Ok c5
    /\ checkpoint (F64.lit 3 10) (n_iter_global n) = Ok c30
    /\ checkpoint (F64.lit 5 10) (n_iter_global n) = Ok c50
    /\ checkpoint (F64.lit 7 10) (n_iter_global n) = Ok c70
    /\ length schedule = Z.to_nat (n_iter_global n)
    /\ forall (i : nat) entry, schedule !! i = Some entry ->
         sublist entry activation_order
         /\ (CMAES ∈ entry <-> Z.of_nat i ∈ calls_to_CMAES)
         /\ (DiffEvol ∈ entry <-> Z.of_nat i ∈ calls_to_DiffEvol)
         /\ (InitialRefine ∈ entry <-> Z.of_nat i = c5)
         /\ (RuntimeRefine ∈ entry <-> Z.of_nat i ∈ [c30; c50; c70]).
Proof.
  intros Hs. apply schedule_iterations_inv in Hs
    as (cC & cD & c5 & c30 & c50 & c70 & HC & HD & H5 & H30 & H50 & H70 & ->).
  exists cC, cD, c5, c30, c50, c70. do 6 (split; [assumption|]).
  split; [now rewrite length_fmap, length_seq|].
  intros i entry Hi. rewrite list_lookup_fmap in Hi.
  destruct (seq _ _ !! i) as [j|] eqn:Hj; [|discriminate].
  apply lookup_seq in Hj as [-> _]. cbn [fmap option_fmap option_map] in Hi.
  injection Hi as <-. change (0 + i)%nat with i.
  rewrite <- !member_elem_of.
  assert (Z.of_nat i = c5 <-> member (Z.of_nat i) [c5] = true) as ->.
  { unfold member. cbn. rewrite orb_false_r. symmetry. apply Z.eqb_eq. }
  unfold activation_order.
  change ((Z.of_nat i =? c5) || false) with (member (Z.of_nat i) [c5]).
  change ((Z.of_nat i =? c30)
          || ((Z.of_nat i =? c50) || ((Z.of_nat i =? c70) || false)))
    with (member (Z.of_nat i) [c30; c50; c70]).
  destruct (member _ cC), (member _ cD), (member _ [c5]), (member _ [c30; c50; c70]);
    cbn [app];
    (split;
     [repeat first [apply sublist_nil_l | apply sublist_skip | apply sublist_cons]
     |split; [|split; [|split]];
      (split; intros Htag;
       first [ reflexivity | discriminate Htag
             | repeat first [apply list_elem_of_here | apply list_elem_of_further];
               fail
             | exfalso;
               repeat (apply elem_of_cons in Htag as [Htag|Htag];
                       [discriminate Htag|]);
               now apply elem_of_nil in Htag ])]).
Qed.

Lemma schedule_entries_witness :
  exists schedule,
    schedule_iterations {| n_iter_CMAES := 50; n_iter_DiffEvol := 25;
                           n_iter_global := 50 |} = Ok schedule
    /\ length schedule = 50%nat.
Proof.
  eexists. split; [vm_compute; reflexivity|].
  destruct (schedule_entries
              {| n_iter_CMAES := 50; n_iter_DiffEvol := 25; n_iter_global := 50 |}
              _ ltac:(vm_compute; reflexivity))
    as (? & ? & ? & ? & ? & ? & _ & _ & _ & _ & _ & _ & Hlen & _).
  exact Hlen.
Defined.

(** No more iterations of a range are members of a list than the list
    has entries. *)
Lemma count_members (l : list Z) (n : nat) :
  (length (filter (fun i : nat => member (Z.of_nat i) l = true) (seq 0 n))
   <= length l)%nat.
Proof.
  set (hits := filter _ _).
  rewrite <- (length_fmap Z.of_nat hits).
  apply submseteq_length, NoDup_submseteq.
  - apply NoDup_fmap_2; [apply _|]. apply NoDup_filter, NoDup_seq.
  - intros z Hz. apply list_elem_of_fmap in Hz as (i & -> & Hi).
    apply list_elem_of_filter in Hi as [Hi _]. now apply member_elem_of.
Qed.

Lemma length_filter_fmap {A B} (f : A -> B) (P : B -> Prop)
    `{forall b, Decision (P b)} (l : list A) :
  length (filter P (f <$> l)) = length (filter (fun a => P (f a)) l).
Proof.
  induction l as [|a l IH]; [reflexivity|].
  rewrite fmap_cons, !filter_cons. cbn beta.
  destruct (decide (P (f a))); cbn [length]; now rewrite IH.
Qed.

Lemma activations_of_fmap a (entry_of : nat -> list activation) (l : list Z) n :
  (forall i, existsb (activation_eqb a) (entry_of i) = member (Z.of_nat i) l) ->
  (activations_of a (entry_of <$> seq 0 n) <= length l)%nat.
Proof.
  intros Hentry. unfold activations_of.
  rewrite length_filter_fmap.
  erewrite list_filter_iff; [apply (count_members l n)|].
  intros i. cbn. now rewrite Hentry.
Qed.

(** X6.  Whatever the iteration counts, a schedule has at most three
    iterations with a runtime refinement (as many as the allocator has
    quotas for) and at most one with the initial refinement. *)
Theorem refinement_activations n schedule :
  schedule_iterations n = Ok schedule ->
  (activations_of RuntimeRefine schedule <= 3)%nat
  /\ (activations_of InitialRefine schedule <= 1)%nat.
Proof.
  intros Hs. apply schedule_iterations_inv in Hs
    as (cC & cD & c5 & c30 & c50 & c70 & _ & _ & _ & _ & _ & _ & ->).
  split.
  - apply (activations_of_fmap RuntimeRefine _ [c30; c50; c70]).
    intros i.
    destruct (member _ cC), (member _ cD), (member _ [c5]),
             (member _ [c30; c50; c70]); reflexivity.
  - apply (activations_of_fmap InitialRefine _ [c5]).
    intros i.
    destruct (member _ cC), (member _ cD), (member _ [c5]),
             (member _ [c30; c50; c70]); reflexivity.
Qed.

Lemma refinement_activations_witness :
  exists schedule,
    schedule_iterations {| n_iter_CMAES := 50; n_iter_DiffEvol := 25;
                           n_iter_global := 50 |} = Ok schedule
    /\ (activations_of RuntimeRefine schedule <= 3)%nat
    /\ (activations_of InitialRefine schedule <= 1)%nat.
Proof.
  eexists. split; [vm_compute; reflexivity|].
  apply (refinement_activations
           {| n_iter_CMAES := 50; n_iter_DiffEvol := 25; n_iter_global := 50 |}).
  vm_compute. reflexivity.
Defined.

(** X7.  For every allocation the allocator accepts, a schedule built
    from it has at least 50 iterations, and its first iteration advances
    both heuristics: CMAES first, then DiffEvol. *)
Theorem accepted_schedule_starts_with_both self a schedule :
  distribute_budget self = Ok a ->
  schedule_iterations (n_iterations a) = Ok schedule ->
  (50 <= length schedule)%nat
  /\ exists entry,
       schedule !! 0%nat = Some entry
       /\ sublist [CMAES; DiffEvol] entry.
Proof.
  intros Ha Hs. apply distribute_budget_inv in Ha as (HC & HD & Hg & _).
  apply resolve_CMAES_iterations in HC. apply resolve_DiffEvol_iterations in HD.
  unfold lb_iterations_CMAES, lb_iterations_DiffEvol in *.
  apply schedule_iterations_inv in Hs
    as (cC & cD & c5 & c30 & c50 & c70 & HcC & HcD & _ & _ & _ & _ & ->).
  apply first_call_index in HcC; [|lia]. apply first_call_index in HcD; [|lia].
  split; [rewrite length_fmap, length_seq; lia|].
  rewrite list_lookup_fmap, lookup_seq_lt by lia. cbn [fmap option_fmap option_map].
  eexists. split; [reflexivity|].
  change (Z.of_nat (0 + 0)) with 0.
  assert (member 0 cC = true) as -> by (apply member_elem_of;
    eapply list_elem_of_lookup_2; exact HcC).
  assert (member 0 cD = true) as -> by (apply member_elem_of;
    eapply list_elem_of_lookup_2; exact HcD).
  cbn [app]. do 2 apply sublist_skip. apply sublist_nil_l.
Qed.

Lemma accepted_schedule_starts_with_both_witness :
  exists a schedule,
    distribute_budget (init 20 500 None 2) = Ok a
    /\ schedule_iterations (n_iterations a) = Ok schedule
    /\ (50 <= length schedule)%nat
    /\ exists entry,
         schedule !! 0%nat = Some entry /\ sublist [CMAES; DiffEvol] entry.
Proof.
  do 2 eexists. split; [vm_compute; reflexivity|].
  split; [vm_compute; reflexivity|].
  eapply (accepted_schedule_starts_with_both (init 20 500 None 2)).
  - vm_compute; reflexivity.
  - vm_compute; reflexivity.
Defined.

(** ** The budgets of the two heuristics *)

Lemma shr_1_even m :
  0 <= m ->
  shr_1 {| shr_m := 2 * m; shr_r := false; shr_s := false |}
  = {| shr_m := m; shr_r := false; shr_s := false |}.
Proof. intros Hm. destruct m as [|q|q]; [reflexivity|reflexivity|lia]. Qed.

Lemma pow2_xI j : 2 ^ Zpos j~1 = 2 * (2 ^ Zpos j * 2 ^ Zpos j).
Proof.
  replace (Zpos j~1) with (1 + (Zpos j + Zpos j)) by lia.
  rewrite !Z.pow_add_r by lia. reflexivity.
Qed.

Lemma pow2_xO j : 2 ^ Zpos j~0 = 2 ^ Zpos j * 2 ^ Zpos j.
Proof.
  replace (Zpos j~0) with (Zpos j + Zpos j) by lia.
  rewrite !Z.pow_add_r by lia. reflexivity.
Qed.

(** Shifting out zero bits is exact. *)
Lemma iter_pos_shr_1_exact j : forall m,
  0 <= m ->
  iter_pos shr_1 j {| shr_m := m * 2 ^ Zpos j; shr_r := false; shr_s := false |}
  = {| shr_m := m; shr_r := false; shr_s := false |}.
Proof.
  induction j as [j IH|j IH|]; intros m Hm; cbn [iter_pos].
  - assert (0 < 2 ^ Zpos j) as Hpow by (apply Z.pow_pos_nonneg; lia).
    rewrite pow2_xI.
    replace (m * (2 * (2 ^ Zpos j * 2 ^ Zpos j)))
      with (2 * ((m * 2 ^ Zpos j) * 2 ^ Zpos j)) by ring.
    rewrite shr_1_even by nia. rewrite IH by nia. apply IH. exact Hm.
  - assert (0 < 2 ^ Zpos j) as Hpow by (apply Z.pow_pos_nonneg; lia).
    rewrite pow2_xO.
    replace (m * (2 ^ Zpos j * 2 ^ Zpos j))
      with ((m * 2 ^ Zpos j) * 2 ^ Zpos j) by ring.
    rewrite IH by nia. apply IH. exact Hm.
  - change (2 ^ 1) with 2. rewrite Z.mul_comm. apply shr_1_even. exact Hm.
Qed.

Lemma digits2_scaled p v k :
  0 <= k -> Zpos p = Zpos v * 2 ^ k ->
  Zpos (digits2_pos p) = Zpos (digits2_pos v) + k.
Proof.
  intros Hk Hp. apply digits2_unique. rewrite Hp.
  pose proof (digits2_bounds v) as [Hlo Hhi].
  assert (0 < 2 ^ k) by (apply Z.pow_pos_nonneg; lia).
  replace (Zpos (digits2_pos v) + k - 1) with ((Zpos (digits2_pos v) - 1) + k) by lia.
  rewrite !Z.pow_add_r by lia. nia.
Qed.

(** A number [v * 2^k * 2^(-k)] with [v] below 2^53 rounds to the float
    of [v]. *)
Lemma binary_round_scaled s p v k :
  0 <= k -> Zpos v < 2 ^ 53 -> Zpos p = Zpos v * 2 ^ k ->
  binary_round F64.prec F64.emax s p (- k) = binary_round F64.prec F64.emax s v 0.
Proof.
  intros Hk Hv Hp.
  destruct (binary_round_small s v Hv) as (m & e & -> & He & Hm).
  pose proof (digits2_small v Hv) as Hdv.
  pose proof (digits2_scaled p v k Hk Hp) as Hdp.
  assert (0 < Zpos (digits2_pos v)) as Hdpos by lia.
  unfold binary_round, shl_align, fexp, emin, F64.prec, F64.emax.
  rewrite Hdp.
  replace ((Zpos (digits2_pos v) + k + - k - 53) `max` (3 - 1024 - 53))
    with e by lia.
  destruct (e - - k) as [|j|j] eqn:Hj.
  - (* no shift: the mantissa has 53 bits *)
    rewrite binary_round_aux_exact by lia.
    f_equal; [|lia]. apply Pos2Z.inj. rewrite Hp, Hm. do 2 f_equal. lia.
  - (* zero bits are shifted out *)
    unfold binary_round_aux, shr_fexp, fexp, emin. cbn [Zdigits2 shr_record_of_loc].
    rewrite Hdp.
    replace ((Zpos (digits2_pos v) + k + - k - 53) `max` (3 - 1024 - 53) - - k)
      with (Zpos j) by lia.
    cbn [shr].
    assert (Zpos p = Zpos m * 2 ^ Zpos j) as Hpm.
    { rewrite Hp, Hm, <- Z.mul_assoc, <- Z.pow_add_r by lia. do 2 f_equal. lia. }
    rewrite Hpm, iter_pos_shr_1_exact by lia.
    cbn [shr_m loc_of_shr_record round_nearest_even Zdigits2].
    assert (Zpos (digits2_pos m) = 53) as Hdm.
    { rewrite (digits2_scaled m v (- e)); [lia|lia|exact Hm]. }
    rewrite Hdm.
    replace ((53 + (- k + Zpos j) - 53) `max` (3 - 1024 - 53) - (- k + Zpos j))
      with 0 by lia.
    cbn [shr shr_m].
    destruct (Z.leb_spec (- k + Zpos j) (1024 - 53)); [|lia].
    f_equal. lia.
  - (* the mantissa is padded to 53 bits *)
    rewrite binary_round_aux_exact.
    + f_equal. apply Pos2Z.inj. rewrite iter_xO, Hp, Hm.
      rewrite <- Z.mul_assoc, <- Z.pow_add_r by lia. do 2 f_equal. lia.
    + rewrite digits2_iter_xO, Hdp. lia.
    + lia.
Qed.

(** The float of a non-zero integer below 2^53 in size. *)
Lemma of_Z_shape z :
  z <> 0 -> Z.abs z < 2 ^ 53 ->
  exists m e,
    F64.of_Z z = S754_finite (z <? 0) m e
    /\ -52 <= e <= 0
    /\ cond_Zopp (z <? 0) (Zpos m) = z * 2 ^ (- e).
Proof.
  intros Hz Hsmall. destruct z as [|p|p]; [congruence| |].
  - rewrite of_Z_pos.
    destruct (binary_round_small false p) as (m & e & -> & He & Hm); [lia|].
    pose proof (digits2_small p ltac:(lia)).
    exists m, e. split; [reflexivity|]. split; [lia|]. cbn [cond_Zopp Z.ltb Z.compare].
    exact Hm.
  - rewrite of_Z_neg.
    destruct (binary_round_small true p) as (m & e & -> & He & Hm); [lia|].
    pose proof (digits2_small p ltac:(lia)).
    exists m, e. split; [reflexivity|]. split; [lia|]. cbn [cond_Zopp Z.ltb Z.compare].
    change (Zneg m) with (- Zpos m). rewrite Hm. change (Zneg p) with (- Zpos p). ring.
Qed.

Lemma shl_align_value m e ez :
  ez <= e -> Zpos (shl_align m e ez).1 = Zpos m * 2 ^ (e - ez).
Proof.
  intros Hle. unfold shl_align. destruct (ez - e) as [|d|d] eqn:Hd; cbn [fst].
  - replace (e - ez) with 0 by lia. rewrite Z.pow_0_r. lia.
  - lia.
  - rewrite iter_xO. do 2 f_equal. lia.
Qed.

(** The difference of the floats of two integers is the float of their
    difference, when all three are below 2^53 in size. *)
Lemma sub_of_Z a b :
  a <> 0 -> b <> 0 ->
  Z.abs a < 2 ^ 53 -> Z.abs b < 2 ^ 53 -> Z.abs (a - b) < 2 ^ 53 ->
  F64.sub (F64.of_Z a) (F64.of_Z b) = F64.of_Z (a - b).
Proof.
  intros Ha Hb Hsa Hsb Hsab.
  destruct (of_Z_shape a Ha Hsa) as (ma & ea & -> & Hea & Hma).
  destruct (of_Z_shape b Hb Hsb) as (mb & eb & -> & Heb & Hmb).
  unfold F64.sub, SFsub. cbv zeta.
  set (ez := Z.min ea eb).
  assert (cond_Zopp (a <? 0) (Zpos (shl_align ma ea ez).1) = a * 2 ^ (- ez)) as ->.
  { rewrite shl_align_value by lia.
    replace (- ez) with (- ea + (ea - ez)) by lia.
    rewrite Z.pow_add_r, Z.mul_assoc, <- Hma by lia.
    destruct (a <? 0); cbn [cond_Zopp]; lia. }
  assert (cond_Zopp (b <? 0) (Zpos (shl_align mb eb ez).1) = b * 2 ^ (- ez)) as ->.
  { rewrite shl_align_value by lia.
    replace (- ez) with (- eb + (eb - ez)) by lia.
    rewrite Z.pow_add_r, Z.mul_assoc, <- Hmb by lia.
    destruct (b <? 0); cbn [cond_Zopp]; lia. }
  assert (0 < 2 ^ (- ez)) as Hpow by (apply Z.pow_pos_nonneg; lia).
  rewrite <- Z.mul_sub_distr_r.
  replace ez with (- - ez) at 2 by lia.
  destruct (a - b) as [|v|v] eqn:Hv.
  - reflexivity.
  - destruct (Zpos v * 2 ^ (- ez)) as [|p|p] eqn:Hp; [lia| |lia].
    cbn [binary_normalize]. rewrite of_Z_pos.
    apply binary_round_scaled; [lia|lia|now rewrite Hp].
  - destruct (Zneg v * 2 ^ (- ez)) as [|p|p] eqn:Hp; [lia|lia|].
    cbn [binary_normalize]. rewrite of_Z_neg.
    apply binary_round_scaled; [lia|lia|lia].
Qed.

(** [int] of the float of an integer gives a number below 2^53 in size
    only for that integer. *)
Lemma int_of_Z_small z k :
  py.int (F64.of_Z z) = Ok k -> Z.abs k < 2 ^ 53 -> z = k.
Proof.
  intros Hint Hk.
  destruct (Z.lt_ge_cases (Z.abs z) (2 ^ 53)) as [Hsmall|Hbig].
  - rewrite int_of_Z in Hint by exact Hsmall. congruence.
  - exfalso. destruct z as [|p|p]; [cbn in Hbig; lia| |].
    + rewrite of_Z_pos in Hint.
      destruct (binary_round_big false p) as [Hr|(m & e & Hr & He & Hm)];
        [lia| |]; rewrite Hr in Hint; [discriminate|].
      unfold py.int, F64.trunc in Hint. cbn [cond_Zopp] in Hint.
      injection Hint as <-. rewrite Z.shiftl_mul_pow2 in Hk by lia.
      assert (2 ^ 1 <= 2 ^ e) by (apply Z.pow_le_mono_r; lia).
      change (2 ^ 1) with 2 in *. change (2 ^ 52) with 4503599627370496 in *.
      change (2 ^ 53) with 9007199254740992 in *. nia.
    + rewrite of_Z_neg in Hint.
      destruct (binary_round_big true p) as [Hr|(m & e & Hr & He & Hm)];
        [lia| |]; rewrite Hr in Hint; [discriminate|].
      unfold py.int, F64.trunc in Hint. cbn [cond_Zopp] in Hint.
      injection Hint as <-. rewrite Z.shiftl_mul_pow2 in Hk by lia.
      assert (2 ^ 1 <= 2 ^ e) by (apply Z.pow_le_mono_r; lia).
      change (2 ^ 1) with 2 in *. change (2 ^ 52) with 4503599627370496 in *.
      change (2 ^ 53) with 9007199254740992 in *. nia.
Qed.

Lemma int_sub_zero g s d :
  Z.abs g < 2 ^ 53 ->
  py.int (F64.sub (F64.of_Z g) (S754_zero s)) = Ok d -> d = g.
Proof.
  intros Hg. destruct (Z.eq_dec g 0) as [->|Hne].
  - destruct s; cbn; congruence.
  - destruct (of_Z_shape g Hne Hg) as (m & e & Hshape & _).
    rewrite Hshape. cbn [F64.sub SFsub]. rewrite <- Hshape.
    rewrite int_of_Z by exact Hg. congruence.
Qed.

Lemma int_sub_of_Z g z k d :
  Z.abs g < 2 ^ 52 -> Z.abs k < 2 ^ 52 ->
  py.int (F64.of_Z z) = Ok k ->
  py.int (F64.sub (F64.of_Z g) (F64.of_Z z)) = Ok d ->
  k + d = g.
Proof.
  intros Hg Hk Hint. change (2 ^ 52) with 4503599627370496 in *.
  assert (z = k) as ->
    by (apply int_of_Z_small; [exact Hint|change (2 ^ 53) with 9007199254740992; lia]).
  destruct (Z.eq_dec k 0) as [->|Hkne].
  - intros Hd. apply int_sub_zero in Hd;
      [lia|change (2 ^ 53) with 9007199254740992; lia].
  - destruct (Z.eq_dec g 0) as [->|Hgne].
    + destruct (of_Z_shape k Hkne) as (m & e & Hshape & _);
        [change (2 ^ 53) with 9007199254740992; lia|].
      rewrite Hshape in Hint |- *. cbn [F64.sub SFsub F64.of_Z binary_normalize].
      unfold py.int, F64.trunc in *. injection Hint as Hk'. intros [= <-].
      destruct (k <? 0); cbn [negb cond_Zopp] in *; lia.
    + rewrite sub_of_Z, int_of_Z;
        try (change (2 ^ 53) with 9007199254740992; lia).
      intros [= <-]. lia.
Qed.

(** [int(np.round(c))] and [int(g - np.round(c))] add up to [g]. *)
Lemma int_sub_round g c k d :
  Z.abs g < 2 ^ 52 -> Z.abs k < 2 ^ 52 ->
  int_round c = Ok k ->
  py.int (F64.sub (F64.of_Z g) (np.round c)) = Ok d ->
  k + d = g.
Proof.
  intros Hg Hk. unfold int_round, np.round.
  assert (Z.abs g < 2 ^ 53) as Hg53
    by (change (2 ^ 52) with 4503599627370496 in *;
        change (2 ^ 53) with 9007199254740992; lia).
  destruct c as [s|s| |s m e]; cbn [F64.rint]; try discriminate.
  - intros [= <-] Hd. apply int_sub_zero in Hd; [lia|exact Hg53].
  - unfold F64.of_Z_signed. destruct (_ =? 0).
    + intros [= <-] Hd. apply int_sub_zero in Hd; [lia|exact Hg53].
    + apply int_sub_of_Z; assumption.
Qed.

Lemma distribute_budget_heuristics self a :
  distribute_budget self = Ok a ->
  budget_local (budgets a) = budget_global (budgets a)
  /\ exists c,
       int_round c = Ok (budget_CMAES (budgets a))
       /\ py.int (F64.sub (F64.of_Z (budget_global (budgets a))) (np.round c))
          = Ok (budget_DiffEvol (budgets a)).
Proof.
  unfold distribute_budget. intros H.
  repeat res_step H. injection H as <-.
  cbn [budgets budget_global budget_local budget_CMAES budget_DiffEvol].
  split; [congruence|].
  repeat match goal with
         | Hf : py.float_of_int _ = Ok _ |- _ =>
             unfold py.float_of_int in Hf;
             destruct (F64.is_inf _) in Hf; [discriminate Hf|];
             injection Hf as <-
         end.
  eexists. split; [eassumption|]. congruence.
Qed.

(** X8.  The budgets of CMAES and DiffEvol add up to the global budget
    exactly, whenever both are below 2^52 in size: DiffEvol gets what
    the rounded 40 percent of CMAES leave. *)
Theorem heuristic_budgets_split self a :
  distribute_budget self = Ok a ->
  Z.abs (budget_global (budgets a)) < 2 ^ 52 ->
  Z.abs (budget_CMAES (budgets a)) < 2 ^ 52 ->
  budget_CMAES (budgets a) + budget_DiffEvol (budgets a)
  = budget_global (budgets a).
Proof.
  intros Ha Hg Hc.
  apply distribute_budget_heuristics in Ha as (_ & c & HC & HD).
  eapply int_sub_round; eauto.
Qed.

Lemma heuristic_budgets_split_witness :
  exists a,
    distribute_budget (init 20 500 None 2) = Ok a
    /\ budget_CMAES (budgets a) + budget_DiffEvol (budgets a)
       = budget_global (budgets a)
    /\ budget_global (budgets a) = 8000.
Proof.
  eexists. split; [vm_compute; reflexivity|]. split; [|reflexivity].
  apply (heuristic_budgets_split (init 20 500 None 2));
    vm_compute; reflexivity.
Defined.

(** ** More on the knowledge exchange *)

Section ShareKnowledgeMore.

Variable select_subsample :
  list Individual -> Z -> strategy -> float -> list (list float) * list nat.
Variable select_weakest_sample : list Individual -> Z -> list nat.
Variable nanpercentile : list float -> Z -> float.

Local Abbreviation run_exchange :=
  (exchange select_subsample select_weakest_sample nanpercentile).
Local Abbreviation run_share_knowledge :=
  (share_knowledge select_subsample select_weakest_sample nanpercentile).


(** The exceptions of one pass of the loop under the policy
    "in between": only an index out of range. *)
Lemma exchange_point_in_between_raises chosen weakest_inds fittest_old
    good_value_old n i s e s' :
  exchange_point chosen weakest_inds "in between" fittest_old good_value_old
                 n i s = (Raise e, s') ->
  e = IndexError.
Proof.
  unfold exchange_point, individual_at, index, read, raise, threshold_of.
  cbn [String.eqb Ascii.eqb Bool.eqb].
  destruct (chosen !! i) as [id_new|]; M_simpl; [|congruence].
  cbn [individuals].
  destruct (from_individuals s !! id_new) as [l_new|]; M_simpl; [|congruence].
  destruct (weakest_inds !! i) as [id_old|]; M_simpl; [|congruence].
  destruct (to_individuals s !! id_old) as [l_old|]; M_simpl; [|congruence].
  destruct (F64.ltb _ _); M_simpl; [|congruence].
  destruct (point_already_in_population _ _); M_simpl; [congruence|].
  unfold deepcopy, set_individual. cbn.
  destruct (decide _); congruence.
Qed.

Lemma for_each_in_between_raises chosen weakest_inds fittest_old
    good_value_old ixs n s e s' :
  for_each (exchange_point chosen weakest_inds "in between" fittest_old
                           good_value_old) ixs n s = (Raise e, s') ->
  e = IndexError.
Proof.
  revert n s. induction ixs as [|i ixs IH]; intros n s; cbn [for_each].
  - M_simpl. discriminate.
  - unfold mbind at 1, M_bind at 1.
    destruct (exchange_point _ _ _ _ _ n i s) as [[n1|e1] s1] eqn:Hstep.
    + apply IH.
    + intros [= <- <-]. eapply exchange_point_in_between_raises; eauto.
Qed.

(** Under the policy "in between" a call raises nothing but the errors
    of an empty population, of the ban distance and of an index out of
    range. *)
Lemma share_knowledge_in_between_raises update_popsize update_strategy
    only_if_new_best_point s e s' :
  run_share_knowledge update_popsize update_strategy "in between"
                      only_if_new_best_point s = (Raise e, s') ->
  e = ValueError \/ e = ZeroDivisionError \/ e = OverflowError
  \/ e = IndexError.
Proof.
  assert (forall fo, run_exchange update_popsize update_strategy "in between"
                       fo s = (Raise e, s') ->
            e = ZeroDivisionError \/ e = OverflowError \/ e = IndexError) as Hex.
  { intros fo. unfold exchange, read, lift, debug. M_simpl.
    destruct (py.float_div_int _ _) as [ban|e0] eqn:Hban.
    - destruct (select_subsample _ _ _ ban) as [pts chosen].
      destruct (for_each _ _ _ s) as [[n'|e1] s1] eqn:Hloop; [discriminate|].
      intros [= <- <-]. apply for_each_in_between_raises in Hloop. auto.
    - intros [= <- <-]. unfold py.float_div_int, py.float_of_int in Hban.
      destruct (_ =? 0); [injection Hban as <-; auto|].
      destruct (F64.is_inf _); cbn in Hban; [injection Hban as <-; auto|discriminate]. }
  unfold share_knowledge. destruct only_if_new_best_point.
  - unfold read, lift, debug. M_simpl. unfold np.nanmin.
    destruct (get_fitness update_to s); [intros [= <- <-]; auto|].
    destruct (get_fitness update_from s); [intros [= <- <-]; auto|].
    destruct (F64.ltb _ _); cbn [negb]; [|discriminate].
    intros H. apply Hex in H. tauto.
  - intros H. apply Hex in H. tauto.
Qed.

(** X10.  None of the exchange calls the global loop makes (between the
    heuristics, gate enabled; from an initial refiner, gate disabled)
    can raise the unbound-variable error or the unknown-policy error:
    all of them use the policy "in between". *)
Theorem loop_exchanges_never_unbound update_strategy s e s' :
  share_between_heuristics select_subsample select_weakest_sample
                           nanpercentile s = (Raise e, s')
  \/ share_from_refiner select_subsample select_weakest_sample nanpercentile
                        update_strategy s = (Raise e, s') ->
  e <> UnboundLocalError /\ e <> UnknownThresholding.
Proof.
  assert (e = ValueError \/ e = ZeroDivisionError \/ e = OverflowError
          \/ e = IndexError -> e <> UnboundLocalError /\ e <> UnknownThresholding)
    as Hkinds by (intros [-> | [-> | [-> | ->]]]; split; discriminate).
  intros [H|H]; apply Hkinds.
  - unfold share_between_heuristics, read, lift in H. M_simpl.
    unfold mbind, M_bind in H.
    destruct (n_update_points _) as [k|e0] eqn:Hk.
    + eapply share_knowledge_in_between_raises; exact H.
    + injection H as <- <-. unfold n_update_points, py.float_mul_int,
        py.float_of_int, py.int in Hk.
      destruct (F64.is_inf _); cbn in Hk; [injection Hk as <-; auto|].
      destruct (F64.ltb _ _); [discriminate|].
      destruct (F64.trunc _); [discriminate|].
      destruct (F64.is_nan _); injection Hk as <-; auto.
  - unfold share_from_refiner, read, lift in H. unfold mbind, M_bind in H.
    destruct (py.float_mul_int _ _) as [x|e0] eqn:Hx.
    + destruct (int_round x) as [k|e1] eqn:Hk.
      * eapply share_knowledge_in_between_raises; exact H.
      * injection H as <- <-. unfold int_round, py.int in Hk.
        destruct (F64.trunc _); [discriminate|].
        destruct (F64.is_nan _); injection Hk as <-; auto.
    + injection H as <- <-. unfold py.float_mul_int, py.float_of_int in Hx.
      destruct (F64.is_inf _); cbn in Hx; [injection Hx as <-; auto|discriminate].
Qed.

(** X11.  With an empty source population, or with the gate enabled and
    an empty destination population, a call fails before the sampler is
    asked: with [ValueError] (the minimum of an empty array) when the
    gate is enabled, with [ZeroDivisionError] (the ban distance) when it
    is disabled.  Nothing is changed or logged. *)
Theorem empty_population_raises update_popsize update_strategy
    update_threshold only_if_new_best_point s :
  from_individuals s = []
  \/ (only_if_new_best_point = true /\ to_individuals s = []) ->
  share_knowledge select_subsample select_weakest_sample nanpercentile
                  update_popsize update_strategy update_threshold
                  only_if_new_best_point s
  = (Raise (if only_if_new_best_point then ValueError else ZeroDivisionError),
     s).
Proof.
  intros Hempty. unfold share_knowledge, exchange, read, lift, get_fitness,
    members, popsize. cbn [individuals]. M_simpl.
  destruct only_if_new_best_point.
  - destruct (to_individuals s) as [|l tl] eqn:Hto; [reflexivity|].
    destruct Hempty as [Hfrom|[_ Hnil]]; [|discriminate Hnil].
    rewrite Hfrom. reflexivity.
  - destruct Hempty as [Hfrom|[Hgate _]]; [|discriminate Hgate].
    rewrite Hfrom. reflexivity.
Qed.

(** X12.  With the gate disabled the policy is looked at only inside
    the loop: when the sampler suggests no point, a call ends normally
    and logs that 0 points were exchanged, for any policy string, known
    or not (also for "only best", whose threshold is unbound). *)
Theorem policy_unread_without_candidates update_popsize update_strategy
    update_threshold s ban_distance :
  py.float_div_int (F64.lit 25 100) (popsize update_from s) = Ok ban_distance ->
  (select_subsample (members update_from s) update_popsize update_strategy
                    ban_distance).1 = [] ->
  run_share_knowledge update_popsize update_strategy update_threshold false s
  = (Ok PyNone, with_log s (Exchanged 0 update_popsize)).
Proof.
  intros Hban Hpts. unfold share_knowledge, exchange, read, lift, debug.
  M_simpl. rewrite Hban.
  destruct (select_subsample _ _ _ ban_distance) as [pts chosen].
  cbn [fst] in Hpts. subst pts. reflexivity.
Qed.

(** X13.  A policy string that is none of the three known ones makes a
    call with the gate disabled fail with the unknown-policy error in
    the first pass of the loop, before anything is replaced or logged,
    provided the sampler gave a first candidate and a first slot that
    index the populations. *)
Theorem unknown_policy_raises update_popsize update_strategy update_threshold
    s ban_distance id_new individual_new id_old individual_old :
  update_threshold <> "only best" ->
  update_threshold <> "always if better" ->
  update_threshold <> "in between" ->
  py.float_div_int (F64.lit 25 100) (popsize update_from s) = Ok ban_distance ->
  (select_subsample (members update_from s) update_popsize update_strategy
                    ban_distance).1 <> [] ->
  (select_subsample (members update_from s) update_popsize update_strategy
                    ban_distance).2 !! 0%nat = Some id_new ->
  from_individuals s !! id_new = Some individual_new ->
  select_weakest_sample (members update_to s) update_popsize !! 0%nat
  = Some id_old ->
  to_individuals s !! id_old = Some individual_old ->
  run_share_knowledge update_popsize update_strategy update_threshold false s
  = (Raise UnknownThresholding, s).
Proof.
  intros H1 H2 H3 Hban Hpts Hc Hf Hw Ht.
  apply String.eqb_neq in H1, H2, H3.
  unfold share_knowledge, exchange, read, lift. M_simpl. rewrite Hban.
  destruct (select_subsample _ _ _ ban_distance) as [pts chosen].
  cbn [fst snd] in Hpts, Hc.
  destruct pts as [|p pts]; [congruence|].
  cbn [length seq for_each]. M_simpl.
  unfold exchange_point, individual_at, index, read, threshold_of. M_simpl.
  rewrite Hc. M_simpl. cbn [individuals]. rewrite Hf, Hw. M_simpl.
  rewrite Ht. M_simpl. rewrite H1, H2, H3. reflexivity.
Qed.

End ShareKnowledgeMore.


Lemma loop_exchanges_never_unbound_witness :
  exists e,
    share_from_refiner example_select_subsample example_select_weakest_sample
      example_nanpercentile example_strategy
      {| objs := []; from_individuals := []; to_individuals := [];
         debug_log := [] |}
    = (Raise e, {| objs := []; from_individuals := []; to_individuals := [];
                   debug_log := [] |})
    /\ e <> UnboundLocalError /\ e <> UnknownThresholding.
Proof.
  exists ZeroDivisionError. split; [vm_compute; reflexivity|].
  apply (loop_exchanges_never_unbound example_select_subsample
           example_select_weakest_sample example_nanpercentile example_strategy
           {| objs := []; from_individuals := []; to_individuals := [];
              debug_log := [] |} ZeroDivisionError
           {| objs := []; from_individuals := []; to_individuals := [];
              debug_log := [] |}).
  right. vm_compute. reflexivity.
Defined.

Lemma empty_population_raises_witness :
  share_knowledge example_select_subsample example_select_weakest_sample
    example_nanpercentile 2 example_strategy "in between" false
    {| objs := objs example_store; from_individuals := [];
       to_individuals := [2; 3; 4]%nat; debug_log := [] |}
  = (Raise ZeroDivisionError,
     {| objs := objs example_store; from_individuals := [];
        to_individuals := [2; 3; 4]%nat; debug_log := [] |}).
Proof.
  apply (empty_population_raises example_select_subsample
           example_select_weakest_sample example_nanpercentile 2
           example_strategy "in between" false). left. reflexivity.
Defined.

Lemma policy_unread_without_candidates_witness :
  share_knowledge example_select_subsample example_select_weakest_sample
    example_nanpercentile 0 example_strategy "no such policy" false example_store
  = (Ok PyNone, with_log example_store (Exchanged 0 0)).
Proof.
  apply (policy_unread_without_candidates example_select_subsample
           example_select_weakest_sample example_nanpercentile 0
           example_strategy "no such policy" example_store (F64.lit 125 1000));
    vm_compute; reflexivity.
Defined.

Lemma unknown_policy_raises_witness :
  share_knowledge example_select_subsample example_select_weakest_sample
    example_nanpercentile 2 example_strategy "no such policy" false example_store
  = (Raise UnknownThresholding, example_store).
Proof.
  apply (unknown_policy_raises example_select_subsample
           example_select_weakest_sample example_nanpercentile 2
           example_strategy "no such policy" example_store (F64.lit 125 1000)
           0%nat 0%nat 2%nat 4%nat); try (vm_compute; reflexivity);
    discriminate.
Defined.

(** ** The quota of an exchange between the heuristics *)

(** Rounding keeps the sign it is given. *)
Lemma binary_round_aux_sign s m e l :
  match binary_round_aux F64.prec F64.emax s m e l with
  | S754_zero s' | S754_infinity s' | S754_finite s' _ _ => s' = s
  | S754_nan => True
  end.
Proof.
  unfold binary_round_aux.
  destruct (shr_fexp _ _ _ _ _) as [mrs' e'].
  destruct (shr_fexp _ _ _ _ _) as [mrs'' e''].
  destruct (shr_m mrs''); [reflexivity| |exact I].
  destruct (_ <=? _); reflexivity.
Qed.

Lemma of_Z_sign z :
  0 <= z ->
  match F64.of_Z z with
  | S754_zero s' | S754_infinity s' | S754_finite s' _ _ => s' = false
  | S754_nan => True
  end.
Proof.
  intros Hz. destruct z as [|p|p]; [reflexivity| |lia].
  rewrite of_Z_pos. unfold binary_round.
  destruct (shl_align _ _ _) as [mz ez]. apply binary_round_aux_sign.
Qed.

(** The product of a positive number and the float of a non-negative
    integer is not negative. *)
Lemma mul_of_Z_sign m e z x :
  0 <= z -> F64.mul (S754_finite false m e) (F64.of_Z z) = x ->
  forall m' e', x <> S754_finite true m' e'.
Proof.
  intros Hz <- m' e'. pose proof (of_Z_sign z Hz) as Hs.
  destruct (F64.of_Z z) as [s|s| |s mz ez]; cbn; try discriminate.
  subst s. cbn [xorb].
  pose proof (binary_round_aux_sign false (Zpos m * Zpos mz) (e + ez) loc_Exact) as Hr.
  destruct (binary_round_aux _ _ _ _ _ _); try discriminate.
  subst. discriminate.
Qed.

(** [int(min([np.round(x), c]))] is at most [c], and not negative unless
    [x] is. *)
Lemma int_min_round c x n :
  0 < c < 2 ^ 53 ->
  (if F64.ltb (F64.of_Z c) (np.round x) then Ok c else py.int (np.round x)) = Ok n ->
  n <= c /\ ((forall m e, x <> S754_finite true m e) -> 0 <= n).
Proof.
  intros Hc. unfold np.round. destruct x as [s|s| |s m e]; cbn [F64.rint].
  - destruct c as [|c|c]; [lia| |lia]. rewrite of_Z_pos.
    destruct (binary_round_small false c) as (mc & ec & -> & _); [lia|].
    cbn. intros [= <-]. lia.
  - destruct c as [|c|c]; [lia| |lia]. rewrite of_Z_pos.
    destruct (binary_round_small false c) as (mc & ec & -> & _); [lia|].
    destruct s; cbn; [discriminate|]. intros [= <-]. lia.
  - destruct c as [|c|c]; [lia| |lia]. rewrite of_Z_pos.
    destruct (binary_round_small false c) as (mc & ec & -> & _); [lia|].
    cbn. discriminate.
  - set (q := Z.shiftl (Zpos m) e).
    set (n0 := if 0 <=? e then q
               else match 2 * (Zpos m - Z.shiftl q (- e)) ?= Z.shiftl 1 (- e) with
                    | Eq => if Z.even q then q else q + 1
                    | Lt => q
                    | Gt => q + 1
                    end).
    assert (0 <= n0) as Hn0.
    { assert (0 <= q) by (apply Z.shiftl_nonneg; lia).
      unfold n0. destruct (0 <=? e); [assumption|].
      destruct (_ ?= _); [destruct (Z.even q)| |]; lia. }
    unfold F64.of_Z_signed. destruct (_ =? 0) eqn:Hzero.
    + destruct c as [|c|c]; [lia| |lia]. rewrite of_Z_pos.
      destruct (binary_round_small false c) as (mc & ec & -> & _); [lia|].
      cbn. intros [= <-]. lia.
    + intros Hmin. apply int_min_of_Z in Hmin as [Hle Hnn]; [|exact Hc].
      split; [exact Hle|]. intros Hsign. apply Hnn.
      destruct s; [|exact Hn0]. exfalso. eapply Hsign. reflexivity.
Qed.

(** X14.  The quota of an exchange between the two heuristics,
    [int(min([np.round(.05 * popsize), 5]))], is never above 5, and for a
    population size (a number that is not negative) it is between 0
    and 5. *)
Theorem heuristic_quota_bounds popsize n :
  n_update_points popsize = Ok n ->
  n <= 5 /\ (0 <= popsize -> 0 <= n).
Proof.
  unfold n_update_points, py.float_mul_int, py.float_of_int.
  destruct (F64.is_inf _); res_simpl; [discriminate|].
  intros Hmin. apply int_min_round in Hmin as [Hle Hnn]; [|lia].
  split; [exact Hle|]. intros Hpop. apply Hnn.
  eapply (mul_of_Z_sign _ _ popsize); [exact Hpop|].
  vm_compute F64.lit. reflexivity.
Qed.

Lemma heuristic_quota_bounds_witness :
  n_update_points 60 = Ok 3 /\ 3 <= 5 /\ (0 <= 60 -> 0 <= 3).
Proof.
  split; [vm_compute; reflexivity|].
  apply (heuristic_quota_bounds 60 3). vm_compute. reflexivity.
Defined.

(** ** What the policies let into the destination *)

Lemma threshold_of_in_between fittest_old good_value_old l s t :
  threshold_of "in between" fittest_old good_value_old l s = (Ok t, s) ->
  t = good_value_old.
Proof.
  unfold threshold_of. cbn [String.eqb Ascii.eqb Bool.eqb]. M_simpl. congruence.
Qed.

Lemma threshold_of_always_if_better fittest_old good_value_old l s t :
  threshold_of "always if better" fittest_old good_value_old l s = (Ok t, s) ->
  t = fitness (deref s l).
Proof.
  unfold threshold_of, read. cbn [String.eqb Ascii.eqb Bool.eqb]. congruence.
Qed.

(** The strict order of binary64 numbers is transitive. *)
Lemma ltb_trans a b c :
  F64.ltb a b = true -> F64.ltb b c = true -> F64.ltb a c = true.
Proof.
  unfold F64.ltb, SFltb, SFcompare.
  destruct a as [sa|sa| |sa ma ea], b as [sb|sb| |sb mb eb],
           c as [sc|sc| |sc mc ec];
    try discriminate; try reflexivity;
    try (destruct sa, sb, sc; (discriminate || reflexivity)).
  destruct sa, sb, sc; try discriminate; try reflexivity;
    change (Pos.compare_cont Eq ma mb) with (Pos.compare ma mb);
    change (Pos.compare_cont Eq mb mc) with (Pos.compare mb mc);
    change (Pos.compare_cont Eq ma mc) with (Pos.compare ma mc);
    destruct (Z.compare_spec ea eb), (Z.compare_spec eb ec),
             (Z.compare_spec ea ec);
    try discriminate; try reflexivity; try lia;
    destruct (Pos.compare_spec ma mb), (Pos.compare_spec mb mc),
             (Pos.compare_spec ma mc);
    cbn; try discriminate; try reflexivity; lia.
Qed.

(** Under the policy "always if better" a slot of [update_to] keeps its
    individual or gets one with a strictly smaller fitness than the one
    it began with, however often it is replaced. *)
Lemma exchanges_always_if_better fittest_old good_value_old s n s1 n1 :
  Forall (fun l => (l < length (objs s))%nat) (to_individuals s) ->
  exchanges (may_replace "always if better" fittest_old good_value_old)
            s n s1 n1 ->
  forall i l, to_individuals s !! i = Some l ->
    exists l', to_individuals s1 !! i = Some l'
      /\ (l' < length (objs s1))%nat
      /\ ((l' = l /\ deref s1 l = deref s l)
          \/ F64.ltb (fitness (deref s1 l')) (fitness (deref s l)) = true).
Proof.
  intros Hlive. rewrite Forall_forall in Hlive.
  induction 1 as [s n|s n s1 n1 l_new id_old Hex IH Hok]; intros i l Hl.
  - exists l. split; [exact Hl|]. split; [|now left].
    apply Hlive. eapply list_elem_of_lookup_2; eauto.
  - destruct (IH Hlive i l Hl) as (l' & Hl' & Hlt & Hcase).
    destruct Hok as (l_old & t & Hold & Hth & Hacc).
    apply threshold_of_always_if_better in Hth. subst t.
    unfold deref in *. cbn [install to_individuals objs].
    rewrite length_app. cbn [length].
    destruct (decide (i = id_old)) as [->|Hne].
    + exists (length (objs s1)).
      rewrite list_lookup_insert_eq by (eapply lookup_lt_Some; eauto).
      split; [reflexivity|]. split; [lia|]. right.
      rewrite lookup_total_app_r, Nat.sub_diag by lia. cbn [lookup_total list_lookup_total].
      assert (l_old = l') as -> by congruence.
      pose proof (accepted_fitness _ _ _ _ Hacc) as Hfit. unfold deref in Hfit.
      destruct Hcase as [[-> Hsame]|Hbelow].
      * rewrite <- Hsame. exact Hfit.
      * eapply ltb_trans; eauto.
    + exists l'. rewrite list_lookup_insert_ne by congruence.
      split; [exact Hl'|]. split; [lia|].
      destruct Hcase as [[-> Hsame]|Hbelow].
      * left. split; [reflexivity|]. rewrite lookup_total_app_l by lia. exact Hsame.
      * right. rewrite lookup_total_app_l by lia. exact Hbelow.
Qed.

(** The quota of an exchange between the heuristics is between 0 and 5
    for a population size. *)
Lemma n_update_points_inv popsize n :
  0 <= popsize -> n_update_points popsize = Ok n -> 0 <= n <= 5.
Proof.
  unfold n_update_points, py.float_mul_int, py.float_of_int.
  destruct (F64.is_inf _); res_simpl; [discriminate|].
  intros Hpop Hmin. apply int_min_round in Hmin as [Hle Hnn]; [|lia].
  split; [|exact Hle]. apply Hnn.
  eapply (mul_of_Z_sign _ _ popsize); [exact Hpop|].
  vm_compute F64.lit. reflexivity.
Qed.

Section Policies.

Variable select_subsample :
  list Individual -> Z -> strategy -> float -> list (list float) * list nat.
Variable select_weakest_sample : list Individual -> Z -> list nat.
Variable nanpercentile : list float -> Z -> float.

Local Abbreviation run_share_knowledge :=
  (share_knowledge select_subsample select_weakest_sample nanpercentile).

(** X15.  Under the policy "in between" (the one every call of the
    global loop uses) each slot of [update_to] refers after the call to
    the individual it referred to before, or to one whose fitness is
    strictly below the 5th percentile the fitness values of [update_to]
    had when the call began; also when the call ends in an error. *)
Theorem in_between_inserts_below_percentile update_popsize update_strategy
    only_if_new_best_point s r s' :
  run_share_knowledge update_popsize update_strategy "in between"
                      only_if_new_best_point s = (r, s') ->
  forall i l, to_individuals s' !! i = Some l ->
    to_individuals s !! i = Some l
    \/ F64.ltb (fitness (deref s' l))
               (nanpercentile (get_fitness update_to s) 5) = true.
Proof.
  intros Hcall i l Hl. apply share_knowledge_inv in Hcall
    as [[-> _]|[(_ & _ & ->)|(fo & ban & n' & s1 & Hfo & Hban & Hex & Hn & Hend)]];
    [now left | now left |].
  assert (to_individuals s' = to_individuals s1 /\ objs s' = objs s1) as [Hto Hobjs]
    by (destruct Hend as [[_ ->]|[-> _]]; split; reflexivity).
  rewrite Hto in Hl. unfold deref. rewrite Hobjs.
  destruct (exchanges_frame _ _ _ _ _ Hex) as (_ & _ & _ & _ & Hslots).
  destruct (Hslots _ _ Hl) as [?|Hfresh]; [now left|right].
  eapply (exchanges_added_below _ s 0 s1 n'); [|exact Hfresh].
  eapply exchanges_impl; [|exact Hex].
  intros s2 l2 id2 (l_old & t & _ & Hth & Hacc).
  apply threshold_of_in_between in Hth as ->. exact Hacc.
Qed.

(** X16.  Under the policy "always if better" no slot of [update_to]
    gets worse: after the call a slot holds the unchanged individual it
    held before, or one with a strictly smaller fitness than that one,
    however often the slot was replaced during the call and also when
    the call ends in an error. *)
Theorem always_if_better_improves_slots update_popsize update_strategy
    only_if_new_best_point s r s' :
  Forall (fun l => (l < length (objs s))%nat) (to_individuals s) ->
  run_share_knowledge update_popsize update_strategy "always if better"
                      only_if_new_best_point s = (r, s') ->
  forall i l, to_individuals s !! i = Some l ->
    exists l', to_individuals s' !! i = Some l'
      /\ ((l' = l /\ deref s' l = deref s l)
          \/ F64.ltb (fitness (deref s' l')) (fitness (deref s l)) = true).
Proof.
  intros Hlive Hcall i l Hl. apply share_knowledge_inv in Hcall
    as [[-> _]|[(_ & _ & ->)|(fo & ban & n' & s1 & Hfo & Hban & Hex & Hn & Hend)]].
  - exists l. split; [exact Hl|]. now left.
  - exists l. split; [exact Hl|]. now left.
  - assert (to_individuals s' = to_individuals s1 /\ objs s' = objs s1) as [Hto Hobjs]
      by (destruct Hend as [[_ ->]|[-> _]]; split; reflexivity).
    destruct (exchanges_always_if_better _ _ _ _ _ _ Hlive Hex i l Hl)
      as (l' & Hl' & _ & Hcase).
    exists l'. rewrite Hto. split; [exact Hl'|]. unfold deref in *.
    rewrite Hobjs. exact Hcase.
Qed.

(** X17.  When the sampler suggests no more points than it is asked
    for, an exchange between the two heuristics copies at most five
    individuals, whatever the sizes of the populations: the number of
    objects grows by the number [c] of replacements, [c] is at most the
    quota and the quota at most 5; a call that returns has logged
    them. *)
Theorem heuristic_exchange_at_most_five s r s' :
  (forall proposal n_samples update_strategy ban_distance,
      0 <= n_samples ->
      Z.of_nat (length (select_subsample proposal n_samples update_strategy
                                         ban_distance).1) <= n_samples) ->
  share_between_heuristics select_subsample select_weakest_sample
                           nanpercentile s = (r, s') ->
  exists c,
    0 <= c <= 5
    /\ Z.of_nat (length (objs s')) = Z.of_nat (length (objs s)) + c
    /\ (forall v, r = Ok v ->
          exists quota, c <= quota <= 5
            /\ (debug_log s' = debug_log s ++ [Exchanged c quota]
                \/ (c = 0
                    /\ debug_log s' = debug_log s ++ [NoneExchanged quota]))).
Proof.
  intros Hsampler. unfold share_between_heuristics, read, lift.
  unfold mbind at 1 2, M_bind at 1 2.
  destruct (n_update_points _) as [quota|e0] eqn:Hquota.
  - apply n_update_points_inv in Hquota; [|unfold popsize; lia].
    intros Hcall. apply share_knowledge_inv in Hcall
      as [[-> [e ->]]|[(_ & -> & ->)|(fo & ban & n' & s1 & _ & _ & Hex & Hn & Hend)]].
    + exists 0. split; [lia|]. split; [lia|]. discriminate.
    + exists 0. split; [lia|]. split; [cbn; lia|]. intros v _.
      exists quota. split; [lia|]. right. split; reflexivity.
    + specialize (Hsampler (members update_from s) quota heuristic_strategy ban
                           ltac:(lia)).
      apply exchanges_frame in Hex as (_ & Hlog & _ & (news & Hobjs & Hnews) & _).
      exists n'. split; [lia|].
      destruct Hend as [[-> ->]|[-> [e ->]]]; cbn [with_log objs debug_log];
        rewrite Hobjs, length_app.
      * split; [lia|]. intros v _. exists quota. split; [lia|]. left.
        now rewrite Hlog.
      * split; [lia|]. discriminate.
  - intros [= <- <-]. exists 0. split; [lia|]. split; [lia|]. discriminate.
Qed.

End Policies.

Lemma in_between_inserts_below_percentile_witness :
  exists s',
    share_knowledge example_select_subsample example_select_weakest_sample
      example_nanpercentile 2 example_strategy "in between" true example_store
    = (Ok PyNone, s')
    /\ to_individuals s' !! 2%nat = Some 5%nat
    /\ (to_individuals example_store !! 2%nat = Some 5%nat
        \/ F64.ltb (fitness (deref s' 5))
                   (example_nanpercentile (get_fitness update_to example_store) 5)
           = true).
Proof.
  eexists. split; [vm_compute; reflexivity|]. split; [reflexivity|].
  apply (in_between_inserts_below_percentile
           example_select_subsample example_select_weakest_sample
           example_nanpercentile 2 example_strategy true example_store
           (Ok PyNone) _ ltac:(vm_compute; reflexivity) 2%nat 5%nat).
  reflexivity.
Defined.

Lemma always_if_better_improves_slots_witness :
  exists s',
    share_knowledge example_select_subsample example_select_weakest_sample
      example_nanpercentile 2 example_strategy "always if better" true
      example_store
    = (Ok PyNone, s')
    /\ exists l',
         to_individuals s' !! 1%nat = Some l'
         /\ ((l' = 3%nat /\ deref s' 3 = deref example_store 3)
             \/ F64.ltb (fitness (deref s' l')) (fitness (deref example_store 3))
                = true).
Proof.
  eexists. split; [vm_compute; reflexivity|].
  apply (always_if_better_improves_slots
           example_select_subsample example_select_weakest_sample
           example_nanpercentile 2 example_strategy true example_store
           (Ok PyNone) _ ltac:(repeat constructor)
           ltac:(vm_compute; reflexivity) 1%nat 3%nat).
  reflexivity.
Defined.

Lemma heuristic_exchange_at_most_five_witness :
  exists s',
    share_between_heuristics example_select_subsample
      example_select_weakest_sample example_nanpercentile example_store
    = (Ok PyNone, s')
    /\ exists c,
         0 <= c <= 5
         /\ Z.of_nat (length (objs s'))
            = Z.of_nat (length (objs example_store)) + c.
Proof.
  eexists. split; [vm_compute; reflexivity|].
  match goal with
  | |- exists c, _ /\ Z.of_nat (length (objs ?s')) = _ =>
      destruct (heuristic_exchange_at_most_five
                  example_select_subsample example_select_weakest_sample
                  example_nanpercentile example_store (Ok PyNone) s')
        as (c & Hc & Hobjs & _)
  end.
  - intros proposal n_samples st ban Hn. cbn.
    rewrite length_fmap, length_take. lia.
  - vm_compute. reflexivity.
  - exists c. split; [exact Hc | exact Hobjs].
Defined.

(** ** What the gate lets through *)

Lemma ltb_irrefl a : F64.ltb a a = false.
Proof.
  unfold F64.ltb, SFltb, SFcompare.
  destruct a as [[]|[]| |[] m e]; try reflexivity;
    rewrite Z.compare_refl;
    change (Pos.compare_cont Eq m m) with (Pos.compare m m);
    rewrite Pos.compare_refl; reflexivity.
Qed.

(** A number below [b] is below every number that is not below [b]. *)
Lemma ltb_below_bound a b v :
  F64.ltb a b = true -> F64.ltb v b = false -> F64.is_nan v = false ->
  F64.ltb a v = true.
Proof.
  unfold F64.ltb, SFltb, SFcompare, F64.is_nan.
  destruct a as [sa|sa| |sa ma ea], b as [sb|sb| |sb mb eb],
           v as [sv|sv| |sv mv ev];
    try discriminate; try reflexivity;
    try (destruct sa, sb, sv; (discriminate || reflexivity)).
  destruct sa, sb, sv; try discriminate; try reflexivity;
    change (Pos.compare_cont Eq ma mb) with (Pos.compare ma mb);
    change (Pos.compare_cont Eq mv mb) with (Pos.compare mv mb);
    change (Pos.compare_cont Eq ma mv) with (Pos.compare ma mv);
    destruct (Z.compare_spec ea eb), (Z.compare_spec ev eb),
             (Z.compare_spec ea ev);
    try discriminate; try reflexivity; try lia;
    destruct (Pos.compare_spec ma mb), (Pos.compare_spec mv mb),
             (Pos.compare_spec ma mv);
    cbn; try discriminate; try reflexivity; lia.
Qed.

Lemma fmin_cases acc v : np.fmin acc v = acc \/ np.fmin acc v = v.
Proof.
  unfold np.fmin. destruct (F64.is_nan acc); [now right|].
  destruct (F64.is_nan v); [now left|]. destruct (F64.ltb v acc); auto.
Qed.

(** The minimum is one of the entries. *)
Lemma fold_fmin_elem tl : forall acc,
  fold_left np.fmin tl acc = acc \/ fold_left np.fmin tl acc ∈ tl.
Proof.
  induction tl as [|w tl IH]; intros acc; cbn [fold_left]; [now left|].
  destruct (IH (np.fmin acc w)) as [Heq|Hin].
  - rewrite Heq. destruct (fmin_cases acc w) as [->| ->];
      [now left | right; apply list_elem_of_here].
  - right. now apply list_elem_of_further.
Qed.

(** No entry that is a number is below the minimum. *)
Lemma fold_fmin_least tl : forall acc v,
  F64.is_nan v = false ->
  (F64.ltb v acc = false /\ F64.is_nan acc = false) \/ v ∈ tl ->
  F64.ltb v (fold_left np.fmin tl acc) = false.
Proof.
  induction tl as [|w tl IH]; intros acc v Hv Hcase; cbn [fold_left].
  - destruct Hcase as [[? _]|Hin]; [assumption|].
    now apply elem_of_nil in Hin.
  - apply IH; [exact Hv|].
    assert (v = w -> F64.ltb v (np.fmin acc w) = false
                     /\ F64.is_nan (np.fmin acc w) = false) as Hhead.
    { intros <-. unfold np.fmin. destruct (F64.is_nan acc) eqn:Hacc.
      - split; [apply ltb_irrefl|exact Hv].
      - rewrite Hv. destruct (F64.ltb v acc) eqn:Hlt.
        + split; [apply ltb_irrefl|exact Hv].
        + split; [exact Hlt|exact Hacc]. }
    destruct Hcase as [[Hge Hacc]|Hin].
    + left. unfold np.fmin. rewrite Hacc.
      destruct (F64.is_nan w) eqn:Hw; [auto|].
      destruct (F64.ltb w acc) eqn:Hlt; [|auto].
      split; [|exact Hw].
      destruct (F64.ltb v w) eqn:Hvw; [|reflexivity].
      rewrite (ltb_trans v w acc Hvw Hlt) in Hge. discriminate.
    + apply elem_of_cons in Hin as [->|Hin]; [left; now apply Hhead|now right].
Qed.

Lemma nanmin_elem l r : np.nanmin l = Ok r -> r ∈ l.
Proof.
  destruct l as [|v tl]; [discriminate|]. intros [= <-].
  destruct (fold_fmin_elem tl v) as [->|Hin];
    [apply list_elem_of_here|now apply list_elem_of_further].
Qed.

Lemma nanmin_least l r v :
  np.nanmin l = Ok r -> v ∈ l -> F64.is_nan v = false -> F64.is_nan r = false ->
  F64.ltb v r = false.
Proof.
  destruct l as [|w tl]; [discriminate|]. intros [= <-] Hin Hv Hr.
  apply elem_of_cons in Hin as [->|Hin].
  - apply fold_fmin_least; [exact Hv|]. left. split; [apply ltb_irrefl|exact Hv].
  - apply fold_fmin_least; [exact Hv|]. now right.
Qed.

Section Gate.

Variable select_subsample :
  list Individual -> Z -> strategy -> float -> list (list float) * list nat.
Variable select_weakest_sample : list Individual -> Z -> list nat.
Variable nanpercentile : list float -> Z -> float.

Local Abbreviation run_share_knowledge :=
  (share_knowledge select_subsample select_weakest_sample nanpercentile).

(** X18.  With the gate enabled a call replaces something in
    [update_to] only when [update_from] has a new best point: some
    individual of [update_from] has a fitness strictly below the fitness
    of every individual of [update_to] whose fitness is a number. *)
Theorem gate_lets_only_new_best_in update_popsize update_strategy
    update_threshold s r s' :
  run_share_knowledge update_popsize update_strategy update_threshold true s
  = (r, s') ->
  to_individuals s' <> to_individuals s ->
  exists l_new,
    l_new ∈ from_individuals s
    /\ forall l_old,
         l_old ∈ to_individuals s ->
         F64.is_nan (fitness (deref s l_old)) = false ->
         F64.ltb (fitness (deref s l_new)) (fitness (deref s l_old)) = true.
Proof.
  unfold share_knowledge, read, lift, debug. M_simpl.
  destruct (np.nanmin (get_fitness update_to s)) as [fittest_old|] eqn:Hold;
    [|intros [= _ <-]; congruence].
  destruct (np.nanmin (get_fitness update_from s)) as [fittest_new|] eqn:Hnew;
    [|intros [= _ <-]; congruence].
  destruct (F64.ltb fittest_new fittest_old) eqn:Hgate; cbn [negb];
    [|intros [= _ <-]; cbn; congruence].
  intros _ _.
  assert (F64.is_nan fittest_old = false) as Hnum_old.
  { destruct fittest_old; try reflexivity.
    destruct fittest_new as [[]|[]| |[] ? ?]; discriminate. }
  apply nanmin_elem in Hnew. unfold get_fitness, members in Hnew.
  rewrite <- list_fmap_compose in Hnew.
  apply list_elem_of_fmap in Hnew as (l_new & -> & Hin). cbn [individuals] in Hin.
  exists l_new. split; [exact Hin|]. intros l_old Hto Hnum. cbn [compose] in *.
  eapply ltb_below_bound; [exact Hgate| |exact Hnum].
  eapply nanmin_least; [exact Hold| |exact Hnum|exact Hnum_old].
  unfold get_fitness, members. rewrite <- list_fmap_compose.
  apply list_elem_of_fmap. exists l_old. split; [reflexivity|exact Hto].
Qed.

End Gate.

Lemma gate_lets_only_new_best_in_witness :
  exists s',
    share_knowledge example_select_subsample example_select_weakest_sample
      example_nanpercentile 2 example_strategy "in between" true example_store
    = (Ok PyNone, s')
    /\ exists l_new,
         l_new ∈ from_individuals example_store
         /\ forall l_old,
              l_old ∈ to_individuals example_store ->
              F64.is_nan (fitness (deref example_store l_old)) = false ->
              F64.ltb (fitness (deref example_store l_new))
                      (fitness (deref example_store l_old)) = true.
Proof.
  eexists. split; [vm_compute; reflexivity|].
  eapply (gate_lets_only_new_best_in
            example_select_subsample example_select_weakest_sample
            example_nanpercentile 2 example_strategy "in between" example_store).
  - vm_compute. reflexivity.
  - vm_compute. discriminate.
Defined.

(** ** Runtime refinement *)

Lemma refine_frame_refl o : refine_frame o o.
Proof. repeat split. Qed.

Lemma refine_frame_trans o1 o2 o3 :
  refine_frame o1 o2 -> refine_frame o2 o3 -> refine_frame o1 o3.
Proof.
  intros (Hc & Hd & Hlen & Hdiv & Hrest) (Hc' & Hd' & Hlen' & Hdiv' & Hrest').
  split; [congruence|]. split; [congruence|]. split; [congruence|]. split.
  - intros l. rewrite Hdiv'. apply Hdiv.
  - intros l Hlc Hld. rewrite Hrest' by congruence. now apply Hrest.
Qed.


Section RuntimeRefineProperties.

Variable select_subsample :
  list Individual -> Z -> strategy -> float -> list (list float) * list nat.
Variable rescale_to_bounds unscale_from_bounds : list float -> list float.
Variable minimize : list float -> nat -> OptimizeResult.

Local Abbreviation run_refined :=
  (refined rescale_to_bounds unscale_from_bounds minimize).
Local Abbreviation run_refine_point :=
  (refine_point rescale_to_bounds unscale_from_bounds minimize).
Local Abbreviation run_refine_points :=
  (refine_points rescale_to_bounds unscale_from_bounds minimize).
Local Abbreviation run_runtime_refine :=
  (runtime_refine select_subsample rescale_to_bounds unscale_from_bounds
                  minimize).

Lemma refine_point_frame chosen i_point o r o' :
  run_refine_point chosen i_point o = (r, o') ->
  refine_frame o o' /\ refinements_run o' = refinements_run o.
Proof.
  unfold refine_point. destruct (chosen !! i_point) as [tmp_id|];
    [|intros [= <- <-]; split; [apply refine_frame_refl|reflexivity]].
  set (pop_id := if decide _ then _ else _). destruct pop_id as [pop id] eqn:Hpop.
  destruct (pop !! id) as [individual|] eqn:Hind;
    [|intros [= <- <-]; split; [apply refine_frame_refl|reflexivity]].
  intros [= <- <-]. split; [|reflexivity].
  assert (individual ∈ cmaes_individuals o \/ individual ∈ diffevol_individuals o)
    as Hin.
  { unfold pop_id in Hpop. destruct (decide _); injection Hpop as <- <-;
      [right|left]; eapply list_elem_of_lookup_2; eauto. }
  unfold refine_frame.
  cbn [individual_objs cmaes_individuals diffevol_individuals].
  split; [reflexivity|]. split; [reflexivity|]. split; [|split].
  - apply length_insert.
  - intros l. destruct (decide (l = individual)) as [->|Hne].
    + destruct (decide (individual < length (individual_objs o))%nat) as [Hlt|Hge].
      * rewrite list_lookup_total_insert_eq by exact Hlt. reflexivity.
      * rewrite list_insert_ge by lia. reflexivity.
    + rewrite list_lookup_total_insert_ne by congruence. reflexivity.
  - intros l Hlc Hld. rewrite list_lookup_total_insert_ne; [reflexivity|].
    intros <-. tauto.
Qed.

Lemma refine_points_frame chosen i_points : forall o r o',
  run_refine_points chosen i_points o = (r, o') ->
  refine_frame o o' /\ refinements_run o' = refinements_run o.
Proof.
  induction i_points as [|i_point rest IH]; intros o r o'; cbn [refine_points].
  - intros [= <- <-]. split; [apply refine_frame_refl|reflexivity].
  - destruct (run_refine_point chosen i_point o) as [[[]|e] o1] eqn:Hstep;
      apply refine_point_frame in Hstep as [Hframe Hrun].
    + intros Hrest. apply IH in Hrest as [Hframe' Hrun'].
      split; [eapply refine_frame_trans; eauto|congruence].
    + intros [= <- <-]. auto.
Qed.

(** X19.  A runtime refinement changes nothing but the point and the
    fitness of individuals of the two heuristics: both populations list
    the same individuals, no object is added or removed, every diversity
    value and every other object is as before.  The counter of
    refinements goes up by one when the block ends normally and stays
    when it raises, also when individuals were overwritten before the
    error. *)
Theorem runtime_refine_frame runtime_refinements o r o' :
  run_runtime_refine runtime_refinements o = (r, o') ->
  refine_frame o o'
  /\ refinements_run o'
     = match r with
       | Ok _ => S (refinements_run o)
       | Raise _ => refinements_run o
       end.
Proof.
  unfold runtime_refine.
  destruct (runtime_refinements !! refinements_run o) as [n_samples|];
    [|intros [= <- <-]; split; [apply refine_frame_refl|reflexivity]].
  destruct (py.float_div_int _ _) as [ban_distance|e];
    [|intros [= <- <-]; split; [apply refine_frame_refl|reflexivity]].
  destruct (select_subsample _ _ _ _) as [refinement_points selection_info].
  destruct (run_refine_points _ _ o) as [[[]|e] o1] eqn:Hloop;
    apply refine_points_frame in Hloop as [Hframe Hrun];
    intros [= <- <-]; cbn [refinements_run]; (split; [|congruence]).
  - exact Hframe.
  - exact Hframe.
Qed.



(** X21.  The index the sampler chose in the merged population is
    resolved to the individual the sampler saw there: an index below
    the size of both populations together designates the reference at
    that place of the CMAES individuals followed by the DiffEvol
    individuals, and that object alone is overwritten by its
    refinement; a larger index raises [IndexError] and changes
    nothing. *)
Theorem refine_point_resolves_merged_index chosen i_point tmp_id o :
  chosen !! i_point = Some tmp_id ->
  match (cmaes_individuals o ++ diffevol_individuals o) !! tmp_id with
  | Some l =>
      merge_populations o !! tmp_id = Some (individual_objs o !!! l)
      /\ exists id,
          run_refine_point chosen i_point o
          = (Ok (),
             {| individual_objs :=
                  <[l := run_refined (individual_objs o !!! l) id]>
                    (individual_objs o);
                cmaes_individuals := cmaes_individuals o;
                diffevol_individuals := diffevol_individuals o;
                refinements_run := refinements_run o |})
  | None => run_refine_point chosen i_point o = (Raise IndexError, o)
  end.
Proof.
  intros Hchosen. unfold refine_point, merge_populations. rewrite Hchosen.
  rewrite <- fmap_app, list_lookup_fmap.
  destruct (decide (length (cmaes_individuals o) <= tmp_id)%nat) as [Hge|Hlt].
  - rewrite lookup_app_r by exact Hge.
    destruct (diffevol_individuals o !! _) as [l|]; [|reflexivity].
    split; [reflexivity|]. eexists. reflexivity.
  - rewrite lookup_app_l by lia.
    destruct (cmaes_individuals o !! _) as [l|]; [|reflexivity].
    split; [reflexivity|]. eexists. reflexivity.
Qed.

End RuntimeRefineProperties.

Lemma runtime_refine_frame_witness :
  exists o',
    runtime_refine example_select_subsample id id example_minimize [2; 1; 1]
                   example_optimizers
    = (Ok (), o')
    /\ refine_frame example_optimizers o'
    /\ refinements_run o' = 1%nat.
Proof.
  eexists. split; [vm_compute; reflexivity|].
  apply (runtime_refine_frame example_select_subsample id id example_minimize
           [2; 1; 1] example_optimizers (Ok ())).
  vm_compute. reflexivity.
Defined.


Lemma refine_point_resolves_merged_index_witness :
  merge_populations example_optimizers !! 2%nat
  = Some (individual_objs example_optimizers !!! 2%nat)
  /\ exists id',
      refine_point id id example_minimize [2]%nat 0 example_optimizers
      = (Ok (),
         {| individual_objs :=
              <[2%nat := refined id id example_minimize
                           (individual_objs example_optimizers !!! 2%nat) id']>
                (individual_objs example_optimizers);
            cmaes_individuals := cmaes_individuals example_optimizers;
            diffevol_individuals := diffevol_individuals example_optimizers;
            refinements_run := refinements_run example_optimizers |}).
Proof.
  apply (refine_point_resolves_merged_index id id example_minimize [2]%nat
           0%nat 2%nat example_optimizers).
  reflexivity.
Defined.
